(** * SendSafe backend core: sanitizer, rate limiter, response normalizer

    A shallow embedding of the request-validation and response-normalization
    code of the SendSafe backend ([lib/sanitizeInput.ts], [lib/rateLimit.ts],
    [lib/parseDetectionResult.ts]) together with the properties stated for it.

    JavaScript strings are sequences of UTF-16 code List.length; they are modelled
    as [list N].  JavaScript numbers that the code uses as counters, lengths
    and millisecond timestamps are integers far below 2^53, where double
    arithmetic is exact; they are modelled as [Z]. *)

From stdpp Require Import gmap.
From Stdlib Require Import ZArith NArith List Ascii String Lia DecimalString.
Import ListNotations.

Local Open Scope N_scope.

(* ===================================================================== *)
(** ** JavaScript strings *)
(* ===================================================================== *)

Module JS.

Abbreviation jsstring := (list N).

(** A string literal of the source, as code List.length. *)
Definition u (s : string) : jsstring :=
  List.map N_of_ascii (list_ascii_of_string s).

(** The same, with every apostrophe of the literal standing for a double
    quote: it lets JSON texts be written down without escaping. *)
Definition q (s : string) : jsstring :=
  List.map (fun c => if c =? 39 then 34 else c) (u s).

(** [s.length] *)
Definition len (s : jsstring) : Z := Z.of_nat (List.length s).

(** WhiteSpace and LineTerminator code points of ECMAScript, the set that
    [String.prototype.trim] strips. *)
Definition isWhiteSpace (c : N) : bool :=
  (c =? 9) || (c =? 10) || (c =? 11) || (c =? 12) || (c =? 13) ||
  (c =? 32) || (c =? 160) || (c =? 5760) ||
  ((8192 <=? c) && (c <=? 8202)) ||
  (c =? 8232) || (c =? 8233) || (c =? 8239) || (c =? 8287) ||
  (c =? 12288) || (c =? 65279).

Fixpoint trimStart (s : jsstring) : jsstring :=
  match s with
  | [] => []
  | c :: t => if isWhiteSpace c then trimStart t else s
  end.

Definition trimEnd (s : jsstring) : jsstring :=
  List.rev (trimStart (List.rev s)).

(** [s.trim()] *)
Definition trim (s : jsstring) : jsstring := trimEnd (trimStart s).

Definition startsWithWhiteSpace (s : jsstring) : bool :=
  match s with
  | c :: _ => isWhiteSpace c
  | [] => false
  end.

Definition endsWithWhiteSpace (s : jsstring) : bool :=
  startsWithWhiteSpace (List.rev s).

(** [s.substring(a, b)]: both indices are clamped to [0, s.length] and
    swapped when out of order. *)
Definition substring (s : jsstring) (a b : Z) : jsstring :=
  let clamp i := Z.to_nat (Z.min (Z.max 0 i) (len s)) in
  let lo := Nat.min (clamp a) (clamp b) in
  let hi := Nat.max (clamp a) (clamp b) in
  List.firstn (hi - lo) (List.skipn lo s).

(** [s.split(sep)[0]] for a one-unit separator: the text before the first
    occurrence of the separator, the whole string when there is none. *)
Fixpoint splitFirst (sep : N) (s : jsstring) : jsstring :=
  match s with
  | [] => []
  | c :: t => if c =? sep then [] else c :: splitFirst sep t
  end.

(** [xs.join(sep)] on an array of strings. *)
Fixpoint join (sep : jsstring) (xs : list jsstring) : jsstring :=
  match xs with
  | [] => []
  | [x] => x
  | x :: rest => x ++ sep ++ join sep rest
  end.

(** Lower-casing of the letters A-Z.  [String.prototype.toLowerCase] also
    maps letters outside ASCII, but the only use in the code compares the
    result with three all-ASCII words, and no code point outside A-Z
    lower-cases to one of their letters, so the comparison is decided by
    this restriction. *)
Definition toLowerCase (s : jsstring) : jsstring :=
  List.map (fun c => if (65 <=? c) && (c <=? 90) then c + 32 else c) s.

(** Decimal rendering of a non-negative integer, as in a template
    literal. *)
Definition ofNat (n : nat) : jsstring :=
  u (NilZero.string_of_uint (Nat.to_uint n)).

(** [n.toString()] and [${n}] for an integer [n] (below 10^21 in
    magnitude, where JavaScript prints all the digits). *)
Definition ofZ (n : Z) : jsstring :=
  if (n <? 0)%Z then 45 :: ofNat (Z.to_nat (- n)) else ofNat (Z.to_nat n).

(** [s.replace(/\s+/g, ' ')]: [\s] matches the same code points that
    [trim] strips; every maximal run of them becomes one space.  [inRun]
    says that the previous character belonged to a run. *)
Fixpoint collapseWhiteSpace (inRun : bool) (s : jsstring) : jsstring :=
  match s with
  | [] => []
  | c :: t =>
      if isWhiteSpace c then
        if inRun then collapseWhiteSpace true t
        else 32 :: collapseWhiteSpace true t
      else c :: collapseWhiteSpace false t
  end.

(** What a throwing operation raises.  The two [Error]s that the parser
    raises on purpose are told apart by their message; anything else that
    can go wrong in the modelled code is a [TypeError]. *)
Inductive exn : Type :=
| JsonParseFailure      (* Error: Failed to parse OpenAI response as JSON *)
| InvalidAiFlag         (* Error: OpenAI response missing or invalid aiFlag field *)
| TypeError.            (* property read or method call on a value that has none *)

Inductive result (A : Type) : Type :=
| Ok (a : A)
| Throw (e : exn).
Arguments Ok {A} a.
Arguments Throw {A} e.

Definition bind {A B} (m : result A) (k : A -> result B) : result B :=
  match m with
  | Ok a => k a
  | Throw e => Throw e
  end.

Fixpoint mapM {A B} (f : A -> result B) (xs : list A) : result (list B) :=
  match xs with
  | [] => Ok []
  | x :: t => bind (f x) (fun y => bind (mapM f t) (fun ys => Ok (y :: ys)))
  end.

Definition returns {A} (m : result A) : Prop := exists a, m = Ok a.

End JS.
Import JS.

Notation "'let*' x ':=' m 'in' k" := (JS.bind m (fun x => k))
  (at level 10, x name, m at level 100, k at level 200).

(* ===================================================================== *)
(** ** Sanitizer ([sanitizeInput.ts]) *)
(* ===================================================================== *)

Module Sanitizer.

Record SanitizeResult : Type := {
  sanitizedText : jsstring;
  wasTruncated : bool;
  originalLength : Z;
  finalLength : Z;
  removedCharacters : Z
}.

(** [CONTROL_CHAR_REGEX = /[\x00-\x08\x0B\x0C\x0E-\x1F\x7F]/g] *)
Definition isControlChar (c : N) : bool :=
  (c <=? 8) || (c =? 11) || (c =? 12) || ((14 <=? c) && (c <=? 31)) ||
  (c =? 127).

(** [cleaned.replace(CONTROL_CHAR_REGEX, '')] *)
Definition removeControlChars (s : jsstring) : jsstring :=
  List.filter (fun c => negb (isControlChar c)) s.

(** [cleaned.replace(/\r\n/g, '\n')] *)
Fixpoint replaceCRLF (s : jsstring) : jsstring :=
  match s with
  | [] => []
  | c :: t =>
      match t with
      | d :: t' =>
          if (c =? 13) && (d =? 10) then 10 :: replaceCRLF t'
          else c :: replaceCRLF t
      | [] => [c]
      end
  end.

(** [cleaned.replace(/\r/g, '\n')] *)
Definition replaceCR (s : jsstring) : jsstring :=
  List.map (fun c => if c =? 13 then 10 else c) s.

(** [cleaned.replace(/\n{3,}/g, '\n\n')].  The regular expression is
    greedy and global, so every maximal run of three or more line feeds is
    replaced by two and shorter runs are left alone.  The scanner carries
    the number of line feeds already written for the current run. *)
Fixpoint collapseFrom (run : nat) (s : jsstring) : jsstring :=
  match s with
  | [] => []
  | c :: t =>
      if c =? 10 then
        if (run <? 2)%nat then c :: collapseFrom (S run) t
        else collapseFrom run t
      else c :: collapseFrom 0 t
  end.

Definition collapseNewlines (s : jsstring) : jsstring := collapseFrom 0 s.

Definition startsWithLF (s : jsstring) : bool :=
  match s with
  | c :: _ => c =? 10
  | [] => false
  end.

Definition sanitizeInput (maxLength : Z) (text : jsstring) : SanitizeResult :=
  let originalLength := len text in
  let cleaned := trim text in
  let cleaned := removeControlChars cleaned in
  let cleaned := replaceCRLF cleaned in
  let cleaned := replaceCR cleaned in
  let cleaned := collapseNewlines cleaned in
  let cleaned := trim cleaned in
  let lengthAfterCleaning := len cleaned in
  let removedCharacters := (originalLength - lengthAfterCleaning)%Z in
  let '(cleaned, wasTruncated) :=
    if (len cleaned >? maxLength)%Z
    then (substring cleaned 0 maxLength, true)
    else (cleaned, false) in
  let finalLength := len cleaned in
  {| sanitizedText := cleaned;
     wasTruncated := wasTruncated;
     originalLength := originalLength;
     finalLength := finalLength;
     removedCharacters := removedCharacters |}.

(** The text after steps 2 to 6, before any truncation. *)
Definition cleanup (text : jsstring) : jsstring :=
  trim (collapseNewlines (replaceCR (replaceCRLF (removeControlChars (trim text))))).

(** Characters that the cleanup leaves behind: neither a stripped control
    character nor a carriage return. *)
Definition isPlain (c : N) : bool := negb (isControlChar c) && negb (c =? 13).

(** No three line feeds in a row, [run] line feeds having just been
    read. *)
Fixpoint tripleFree (run : nat) (s : jsstring) : bool :=
  match s with
  | [] => true
  | c :: t =>
      if c =? 10 then (run <? 2)%nat && tripleFree (S run) t
      else tripleFree 0 t
  end.


(** *** The other exports of [sanitizeInput.ts] *)

Record ValidationResult : Type := {
  isValid : bool;
  error : option jsstring          (* [None] is [undefined] *)
}.

Definition MIN_LENGTH : Z := 10.

(** [validateText(text)] *)
Definition validateText (text : jsstring) : ValidationResult :=
  match text with
  | [] =>                                              (* !text *)
      {| isValid := false; error := Some (u "Text is required") |}
  | _ :: _ =>
      if (len (trim text) =? 0)%Z then
        {| isValid := false;
           error := Some (u "Text cannot be empty or only whitespace") |}
      else if (len (trim text) <? MIN_LENGTH)%Z then
        {| isValid := false;
           error := Some (u "Text must be at least " ++ ofZ MIN_LENGTH ++
                          u " characters") |}
      else {| isValid := true; error := None |}
  end.

(** [countControlCharacters(text)]: [text.match] gives the array of all
    matches, or [null] when there is none, and [matches?.length || 0] is 0
    then. *)
Definition countControlCharacters (text : jsstring) : Z :=
  match List.filter isControlChar text with
  | [] => 0%Z
  | (_ :: _) as matches => Z.of_nat (List.length matches)
  end.

(** [createSafePreview(text, maxLength)]; [maxLength] defaults to 50. *)
Definition createSafePreview (text : jsstring) (maxLength : Z) : jsstring :=
  let preview := List.map (fun c => if c =? 10 then 32 else c) text in
  let preview := collapseWhiteSpace false preview in
  let preview := trim preview in
  if (len preview >? maxLength)%Z
  then substring preview 0 maxLength ++ u "..."
  else preview.

Definition createSafePreviewDefault (text : jsstring) : jsstring :=
  createSafePreview text 50.

(** A code unit that no step of the sanitizer can remove: neither
    whitespace nor a stripped control character. *)
Definition isVisible (c : N) : bool :=
  negb (isWhiteSpace c) && negb (isControlChar c).

End Sanitizer.

(* ===================================================================== *)
(** ** Rate limiter ([rateLimit.ts]) *)
(* ===================================================================== *)

Module RateLimit.

Local Open Scope Z_scope.

(** [config.rateLimit] *)
Record Config : Type := {
  maxRequests : Z;
  windowMinutes : Z
}.

Record RateLimitEntry : Type := {
  count : Z;
  windowStart : Z
}.

Record RateLimitResult : Type := {
  allowed : bool;
  remaining : Z;
  resetTime : Z;
  retryAfter : option Z          (* [None] is [undefined] *)
}.

(** [rateLimitStore]: the module-level [Map] from IP address to entry.
    Entries are objects mutated in place; in the model every mutation of
    an entry is a write of the new entry under its key. *)
Abbreviation Store := (gmap jsstring RateLimitEntry).

(** [config.rateLimit.windowMinutes * 60 * 1000] *)
Definition windowDuration (cfg : Config) : Z := windowMinutes cfg * 60 * 1000.

(** [Math.ceil(ms / 1000)] on an integer number of milliseconds. *)
Definition ceilSeconds (ms : Z) : Z := - ((- ms) / 1000).

(** [checkRateLimit(ipAddress)], with [Date.now()] as the argument [now]
    and the store before the call as [st]; it returns the result and the
    store after the call. *)
Definition checkRateLimit (cfg : Config) (now : Z) (ipAddress : jsstring)
    (st : Store) : RateLimitResult * Store :=
  (* steps 3 and 4: look up, create or reset *)
  let '(entry, st) :=
    match st !! ipAddress with
    | None =>
        let entry := {| count := 0; windowStart := now |} in
        (entry, <[ipAddress := entry]> st)
    | Some entry =>
        let windowAge := now - windowStart entry in
        if windowAge >=? windowDuration cfg then
          let entry := {| count := 0; windowStart := now |} in
          (entry, <[ipAddress := entry]> st)
        else (entry, st)
    end in
  (* step 5 *)
  let allowed := count entry <? maxRequests cfg in
  (* step 6: entry.count++ *)
  let '(entry, st) :=
    if allowed then
      let entry := {| count := count entry + 1;
                      windowStart := windowStart entry |} in
      (entry, <[ipAddress := entry]> st)
    else (entry, st) in
  (* step 7 *)
  let remaining := Z.max 0 (maxRequests cfg - count entry) in
  let resetTime := windowStart entry + windowDuration cfg in
  let retryAfter :=
    if negb allowed then Some (ceilSeconds (resetTime - now)) else None in
  ({| allowed := allowed; remaining := remaining;
      resetTime := resetTime; retryAfter := retryAfter |}, st).

(** [resetRateLimit(ipAddress)]: [Map.prototype.delete] reports whether
    the key was present. *)
Definition resetRateLimit (ipAddress : jsstring) (st : Store) : bool * Store :=
  (bool_decide (is_Some (st !! ipAddress)), delete ipAddress st).

(** [clearAllRateLimits()] *)
Definition clearAllRateLimits (st : Store) : unit * Store := (tt, ∅).

(** [getRateLimitStatus(ipAddress)].  The source only calls
    [rateLimitStore.get] and reads the entry; the store it leaves is
    returned next to the result, as for the other operations. *)
Definition getRateLimitStatus (cfg : Config) (now : Z) (ipAddress : jsstring)
    (st : Store) : RateLimitResult * Store :=
  match st !! ipAddress with
  | None =>
      ({| allowed := true; remaining := maxRequests cfg;
          resetTime := now + windowDuration cfg; retryAfter := None |}, st)
  | Some entry =>
      let windowAge := now - windowStart entry in
      if windowAge >=? windowDuration cfg then
        ({| allowed := true; remaining := maxRequests cfg;
            resetTime := now + windowDuration cfg; retryAfter := None |}, st)
      else
        let allowed := count entry <? maxRequests cfg in
        let remaining := Z.max 0 (maxRequests cfg - count entry) in
        let resetTime := windowStart entry + windowDuration cfg in
        let retryAfter :=
          if negb allowed then Some (ceilSeconds (resetTime - now))
          else None in
        ({| allowed := allowed; remaining := remaining;
            resetTime := resetTime; retryAfter := retryAfter |}, st)
  end.

Record RateLimitStats : Type := {
  totalIPs : Z;
  activeWindows : Z;
  expiredWindows : Z
}.

Definition isExpired (cfg : Config) (now : Z) (entry : RateLimitEntry) : bool :=
  now - windowStart entry >=? windowDuration cfg.

(** [getRateLimitStats()] *)
Definition getRateLimitStats (cfg : Config) (now : Z) (st : Store)
    : RateLimitStats * Store :=
  let entries := map_to_list st in
  let active := List.filter (fun kv => negb (isExpired cfg now (snd kv))) entries in
  let expired := List.filter (fun kv => isExpired cfg now (snd kv)) entries in
  ({| totalIPs := Z.of_nat (size st);
      activeWindows := Z.of_nat (List.length active);
      expiredWindows := Z.of_nat (List.length expired) |}, st).

(** [cleanupExpiredEntries()]: the keys of the expired entries are
    collected first and deleted afterwards, one count per deletion. *)
Definition cleanupExpiredEntries (cfg : Config) (now : Z) (st : Store)
    : Z * Store :=
  let ipsToDelete :=
    List.map fst
      (List.filter (fun kv => isExpired cfg now (snd kv)) (map_to_list st)) in
  List.fold_left
    (fun acc ip => (fst acc + 1, delete ip (snd acc)))
    ipsToDelete (0, st).

(** The counter and the start of the window that is current at [now]:
    a fresh window when there is no entry or its window has run out. *)
Definition currentCount (cfg : Config) (now : Z) (e : option RateLimitEntry) : Z :=
  match e with
  | None => 0
  | Some entry => if isExpired cfg now entry then 0 else count entry
  end.

Definition currentWindowStart (cfg : Config) (now : Z)
    (e : option RateLimitEntry) : Z :=
  match e with
  | None => now
  | Some entry => if isExpired cfg now entry then now else windowStart entry
  end.

Definition withinLimit (cfg : Config) (entry : RateLimitEntry) : Prop :=
  0 <= count entry <= maxRequests cfg.

(** The answer for a client with nothing used in a window that would
    start at [now]. *)
Definition fullQuota (cfg : Config) (now : Z) : RateLimitResult :=
  {| allowed := true; remaining := maxRequests cfg;
     resetTime := now + windowDuration cfg; retryAfter := None |}.

(** *** Sequences of calls

    The store is module state that lives as long as the process; a run of
    the process is a finite sequence of calls on it, each with the clock
    reading it observes. *)
Inductive Call : Type :=
| CheckRateLimit (now : Z) (ipAddress : jsstring)
| GetRateLimitStatus (now : Z) (ipAddress : jsstring)
| ResetRateLimit (ipAddress : jsstring)
| ClearAllRateLimits
| CleanupExpiredEntries (now : Z).

Inductive Outcome : Type :=
| Checked (r : RateLimitResult)
| Status (r : RateLimitResult)
| WasPresent (b : bool)
| Cleared
| Removed (n : Z).

Definition perform (cfg : Config) (c : Call) (st : Store) : Outcome * Store :=
  match c with
  | CheckRateLimit now ip =>
      let '(r, st') := checkRateLimit cfg now ip st in (Checked r, st')
  | GetRateLimitStatus now ip =>
      let '(r, st') := getRateLimitStatus cfg now ip st in (Status r, st')
  | ResetRateLimit ip =>
      let '(b, st') := resetRateLimit ip st in (WasPresent b, st')
  | ClearAllRateLimits =>
      let '(_, st') := clearAllRateLimits st in (Cleared, st')
  | CleanupExpiredEntries now =>
      let '(n, st') := cleanupExpiredEntries cfg now st in (Removed n, st')
  end.

Fixpoint run (cfg : Config) (cs : list Call) (st : Store)
    : list Outcome * Store :=
  match cs with
  | [] => ([], st)
  | c :: rest =>
      let '(o, st') := perform cfg c st in
      let '(os, st'') := run cfg rest st' in
      (o :: os, st'')
  end.

(** The [allowed] flag of the outcome of a [checkRateLimit] call. *)
Definition allowedOf (o : Outcome) : option bool :=
  match o with
  | Checked r => Some (allowed r)
  | _ => None
  end.

(** [n] calls of [checkRateLimit] for one identifier, at the given clock
    readings. *)
Definition checksAt (ip : jsstring) (times : list Z) : list Call :=
  List.map (fun t => CheckRateLimit t ip) times.

Definition isPeek (c : Call) : bool :=
  match c with GetRateLimitStatus _ _ => true | _ => false end.

Definition isStatus (o : Outcome) : bool :=
  match o with Status _ => true | _ => false end.

(** *** Client identifier

    [headers] is a [Record<string, string | string[] | undefined>]; a key
    bound to [undefined] reads like an absent key. *)
Inductive HeaderValue : Type :=
| HString (s : jsstring)
| HArray (xs : list jsstring).

Abbreviation Headers := (gmap jsstring HeaderValue).

(** Truthiness of [headers[name]]: [undefined] and the empty string are
    falsy, every array is truthy. *)
Definition truthyHeader (v : option HeaderValue) : bool :=
  match v with
  | None => false
  | Some (HString []) => false
  | Some (HString (_ :: _)) => true
  | Some (HArray _) => true
  end.

(** [if (Array.isArray(ip)) { ip = ip[0]; }]: reading index 0 of an empty
    array gives [undefined], here [None]. *)
Definition firstIfArray (v : HeaderValue) : option jsstring :=
  match v with
  | HString s => Some s
  | HArray xs => List.head xs
  end.

(** A method call [ip.m(...)] on a value that is a string or
    [undefined]. *)
Definition onString {A} (ip : option jsstring) (m : jsstring -> A) : result A :=
  match ip with
  | Some s => Ok (m s)
  | None => Throw TypeError
  end.

Definition extractIPAddress (headers : Headers) : result jsstring :=
  let ip := headers !! u "x-forwarded-for" in
  if truthyHeader ip then
    onString (ip ≫= firstIfArray) (fun s => trim (splitFirst 44 s))
  else
  let ip := headers !! u "x-real-ip" in
  if truthyHeader ip then onString (ip ≫= firstIfArray) trim
  else
  let ip := headers !! u "cf-connecting-ip" in
  if truthyHeader ip then onString (ip ≫= firstIfArray) trim
  else
  let ip := headers !! u "x-client-ip" in
  if truthyHeader ip then onString (ip ≫= firstIfArray) trim
  else Ok (u "unknown").

(** The loop of [cleanupExpiredEntries] over the identifiers to delete,
    and the identifiers it runs over. *)
Definition sweep (ips : list jsstring) (acc : Z * Store) : Z * Store :=
  List.fold_left (fun acc ip => (fst acc + 1, delete ip (snd acc))) ips acc.

Definition expiredKeys (cfg : Config) (now : Z) (st : Store) : list jsstring :=
  List.map fst
    (List.filter (fun kv => isExpired cfg now (snd kv)) (map_to_list st)).

End RateLimit.

(* ===================================================================== *)
(** ** JSON values and [JSON.parse] *)
(* ===================================================================== *)

Module Json.

(** A JSON number as written: [± mantissa × 10^exponent].  The code never
    computes with the numbers of a reply; it only tests them for
    truthiness, which needs to know whether the double they denote is
    zero. *)
Record number : Type := {
  negative : bool;
  mantissa : N;
  exponent : Z
}.

Local Unset Elimination Schemes.
Inductive value : Type :=
| JNull
| JBool (b : bool)
| JNumber (n : number)
| JString (s : jsstring)
| JArray (xs : list value)
| JObject (members : list (jsstring * value)).
Local Set Elimination Schemes.

(** The double nearest to a decimal is zero exactly when the decimal is
    at most half the least subnormal, 2^-1075 (the tie goes to the even
    neighbour, which is zero). *)
Definition isZero (n : number) : bool :=
  (mantissa n =? 0) ||
  ((exponent n <? 0)%Z &&
   (Z.of_N (mantissa n) * 2 ^ 1075 <=? 10 ^ (- exponent n))%Z).

(** *** Lexical helpers *)

Definition isJsonSpace (c : N) : bool :=
  (c =? 9) || (c =? 10) || (c =? 13) || (c =? 32).

Fixpoint skipSpace (s : jsstring) : jsstring :=
  match s with
  | [] => []
  | c :: t => if isJsonSpace c then skipSpace t else s
  end.

Fixpoint stripPrefix (p s : jsstring) : option jsstring :=
  match p, s with
  | [], _ => Some s
  | a :: p', b :: s' => if a =? b then stripPrefix p' s' else None
  | _ :: _, [] => None
  end.

Definition isDigit (c : N) : bool := (48 <=? c) && (c <=? 57).

Fixpoint spanDigits (s : jsstring) : list N * jsstring :=
  match s with
  | [] => ([], [])
  | c :: t =>
      if isDigit c then
        let '(ds, r) := spanDigits t in (c - 48 :: ds, r)
      else ([], s)
  end.

Definition digitsValue (ds : list N) : N :=
  List.fold_left (fun acc d => 10 * acc + d) ds 0.

Definition hexValue (c : N) : option N :=
  if isDigit c then Some (c - 48)
  else if (97 <=? c) && (c <=? 102) then Some (c - 87)
  else if (65 <=? c) && (c <=? 70) then Some (c - 55)
  else None.

(** The character an escape letter stands for ([\u] is handled apart). *)
Definition simpleEscape (c : N) : option N :=
  if c =? 34 then Some 34          (* double quote *)
  else if c =? 92 then Some 92     (* backslash *)
  else if c =? 47 then Some 47     (* slash *)
  else if c =? 98 then Some 8      (* b: backspace *)
  else if c =? 102 then Some 12    (* f: form feed *)
  else if c =? 110 then Some 10    (* n: line feed *)
  else if c =? 114 then Some 13    (* r: carriage return *)
  else if c =? 116 then Some 9     (* t: tab *)
  else None.

(** The characters of a string after its opening quote, up to and
    including the closing quote. *)
Fixpoint parseStringBody (s : jsstring) : option (jsstring * jsstring) :=
  match s with
  | [] => None
  | c :: t =>
      if c =? 34 then Some ([], t)
      else if c =? 92 then
        match t with
        | [] => None
        | e :: t1 =>
            if e =? 117 then
              match t1 with
              | h1 :: h2 :: h3 :: h4 :: t2 =>
                  match hexValue h1, hexValue h2, hexValue h3, hexValue h4 with
                  | Some a, Some b, Some c', Some d =>
                      match parseStringBody t2 with
                      | Some (str, r) =>
                          Some (((a * 16 + b) * 16 + c') * 16 + d :: str, r)
                      | None => None
                      end
                  | _, _, _, _ => None
                  end
              | _ => None
              end
            else
              match simpleEscape e with
              | Some ch =>
                  match parseStringBody t1 with
                  | Some (str, r) => Some (ch :: str, r)
                  | None => None
                  end
              | None => None
              end
        end
      else if c <? 32 then None
      else
        match parseStringBody t with
        | Some (str, r) => Some (c :: str, r)
        | None => None
        end
  end.

(** A number: an optional minus sign; an integer part that is a single 0
    or starts with a digit 1-9; an optional fraction of a dot and at
    least one digit; an optional exponent of e or E, an optional sign and
    at least one digit. *)
Definition parseNumber (s : jsstring) : option (number * jsstring) :=
  let '(neg, s) :=
    match s with
    | c :: t => if c =? 45 then (true, t) else (false, s)
    | [] => (false, s)
    end in
  let intPart :=
    match s with
    | c :: t =>
        if c =? 48 then Some ([0], t)
        else if isDigit c then Some (spanDigits s)
        else None
    | [] => None
    end in
  match intPart with
  | None => None
  | Some (ints, s) =>
      let fracPart :=
        match s with
        | c :: t =>
            if c =? 46 then
              match spanDigits t with
              | ([], _) => None
              | (fs, r) => Some (fs, r)
              end
            else Some ([], s)
        | [] => Some ([], s)
        end in
      match fracPart with
      | None => None
      | Some (fracs, s) =>
          let expPart :=
            match s with
            | c :: t =>
                if (c =? 101) || (c =? 69) then
                  let '(eneg, t) :=
                    match t with
                    | d :: t' =>
                        if d =? 45 then (true, t')
                        else if d =? 43 then (false, t')
                        else (false, t)
                    | [] => (false, t)
                    end in
                  match spanDigits t with
                  | ([], _) => None
                  | (es, r) =>
                      let e := Z.of_N (digitsValue es) in
                      Some ((if eneg then - e else e)%Z, r)
                  end
                else Some (0%Z, s)
            | [] => Some (0%Z, s)
            end in
          match expPart with
          | None => None
          | Some (e, s) =>
              Some ({| negative := neg;
                       mantissa := digitsValue (ints ++ fracs);
                       exponent := (e - Z.of_nat (List.length fracs))%Z |}, s)
          end
      end
  end.

(** A value that is not an array or an object: a string, one of the three
    literals, or a number. *)
Definition parseScalar (s : jsstring) : option (value * jsstring) :=
  match s with
  | [] => None
  | c :: t =>
      if c =? 34 then
        match parseStringBody t with
        | Some (str, r) => Some (JString str, r)
        | None => None
        end
      else
        match stripPrefix (u "true") s with
        | Some r => Some (JBool true, r)
        | None =>
        match stripPrefix (u "false") s with
        | Some r => Some (JBool false, r)
        | None =>
        match stripPrefix (u "null") s with
        | Some r => Some (JNull, r)
        | None =>
        match parseNumber s with
        | Some (n, r) => Some (JNumber n, r)
        | None => None
        end end end end
  end.

(** *** The value grammar

    Arrays and objects nest, so the three parsers recurse on a fuel
    counter; every call consumes input before it recurses, and
    [JSON_parse] supplies more fuel than a text of its length can use
    (see [parseValue_fuel] below). *)
Fixpoint parseValue (fuel : nat) (s : jsstring) : option (value * jsstring) :=
  match fuel with
  | O => None
  | S fuel' =>
      match skipSpace s with
      | [] => None
      | c :: t =>
          if c =? 91 then
            match skipSpace t with
            | [] => None
            | d :: r =>
                if d =? 93 then Some (JArray [], r)
                else
                  match parseElements fuel' t with
                  | Some (xs, r') => Some (JArray xs, r')
                  | None => None
                  end
            end
          else if c =? 123 then
            match skipSpace t with
            | [] => None
            | d :: r =>
                if d =? 125 then Some (JObject [], r)
                else
                  match parseMembers fuel' t with
                  | Some (ms, r') => Some (JObject ms, r')
                  | None => None
                  end
            end
          else parseScalar (c :: t)
      end
  end

(** The elements of a non-empty array after its opening bracket, up to
    and including the closing bracket. *)
with parseElements (fuel : nat) (s : jsstring) : option (list value * jsstring) :=
  match fuel with
  | O => None
  | S fuel' =>
      match parseValue fuel' s with
      | None => None
      | Some (v, r) =>
          match skipSpace r with
          | [] => None
          | d :: r' =>
              if d =? 44 then
                match parseElements fuel' r' with
                | Some (vs, r'') => Some (v :: vs, r'')
                | None => None
                end
              else if d =? 93 then Some ([v], r')
              else None
          end
      end
  end

(** The members of a non-empty object after its opening brace, up to and
    including the closing brace. *)
with parseMembers (fuel : nat) (s : jsstring)
    : option (list (jsstring * value) * jsstring) :=
  match fuel with
  | O => None
  | S fuel' =>
      match skipSpace s with
      | [] => None
      | c :: t =>
          if c =? 34 then
            match parseStringBody t with
            | None => None
            | Some (key, r) =>
                match skipSpace r with
                | [] => None
                | d :: r1 =>
                    if d =? 58 then
                      match parseValue fuel' r1 with
                      | None => None
                      | Some (v, r2) =>
                          match skipSpace r2 with
                          | [] => None
                          | e :: r3 =>
                              if e =? 44 then
                                match parseMembers fuel' r3 with
                                | Some (ms, r4) => Some ((key, v) :: ms, r4)
                                | None => None
                                end
                              else if e =? 125 then Some ([(key, v)], r3)
                              else None
                          end
                      end
                    else None
                end
            end
          else None
      end
  end.

(** [JSON.parse(text)]; [None] stands for the [SyntaxError] it throws. *)
Definition JSON_parse (text : jsstring) : option value :=
  match parseValue (2 * List.length text + 2) text with
  | Some (v, r) =>
      match skipSpace r with
      | [] => Some v
      | _ :: _ => None
      end
  | None => None
  end.

(** *** Reading parsed values *)

(** The value a key is bound to in an object built by [JSON.parse]: when
    a key occurs twice the later member wins. *)
Fixpoint lookupMember (key : jsstring) (ms : list (jsstring * value))
    : option value :=
  match ms with
  | [] => None
  | (k, v) :: rest =>
      match lookupMember key rest with
      | Some v' => Some v'
      | None => if bool_decide (k = key) then Some v else None
      end
  end.

(** [v.key] for the property names the parser reads ([aiFlag],
    [confidence], [categoriesFound], [indicators], [reasoning], [type],
    [snippet], [explanation]): none of them exists on a built-in
    prototype, so the read gives [undefined] ([None]) unless [v] is an
    object that has the key itself, and throws on [null]. *)
Definition getProp (v : value) (key : jsstring) : result (option value) :=
  match v with
  | JNull => Throw TypeError
  | JObject ms => Ok (lookupMember key ms)
  | _ => Ok None
  end.

(** JavaScript truthiness of a value read from a reply. *)
Definition truthy (v : option value) : bool :=
  match v with
  | None => false
  | Some JNull => false
  | Some (JBool b) => b
  | Some (JNumber n) => negb (isZero n)
  | Some (JString s) => match s with [] => false | _ :: _ => true end
  | Some (JArray _) => true
  | Some (JObject _) => true
  end.

Definition isStringValue (v : value) : bool :=
  match v with JString _ => true | _ => false end.

(** [v.m()] where [m] is a method of [String.prototype]: a value that is
    not a string has no such method (a JSON value is never a function),
    and [undefined] and [null] have no properties at all. *)
Definition callString {A} (v : option value) (m : jsstring -> A) : result A :=
  match v with
  | Some (JString s) => Ok (m s)
  | _ => Throw TypeError
  end.

(** [v?.m()]: [undefined] when [v] is [undefined] or [null]. *)
Definition optCallString {A} (v : option value) (m : jsstring -> A)
    : result (option A) :=
  match v with
  | None => Ok None
  | Some JNull => Ok None
  | Some (JString s) => Ok (Some (m s))
  | Some _ => Throw TypeError
  end.

(** [x || ''] for [x] a string or [undefined]. *)
Definition orEmpty (x : option jsstring) : jsstring :=
  match x with
  | Some s => s
  | None => []
  end.

End Json.

(* ===================================================================== *)
(** ** Response normalizer ([parseDetectionResult.ts]) *)
(* ===================================================================== *)

Module Detection.

Import Json.

Record AIIndicator : Type := {
  type : jsstring;
  snippet : jsstring;
  explanation : jsstring
}.

(** ['low' | 'medium' | 'high'] *)
Inductive Confidence : Type := Low | Medium | High.

Definition confidenceText (c : Confidence) : jsstring :=
  match c with
  | Low => u "low"
  | Medium => u "medium"
  | High => u "high"
  end.

Record DetectionResult : Type := {
  aiFlag : bool;
  confidence : Confidence;
  categoriesFound : list jsstring;
  indicators : list AIIndicator;
  reasoning : jsstring
}.

Definition defaultReasoning : jsstring := u "No reasoning provided".

(** Step 3: [if (parsed.confidence) { ... parsed.confidence.toLowerCase() ... }] *)
Definition normalizeConfidence (parsed : value) : result Confidence :=
  let* c := getProp parsed (u "confidence") in
  if truthy c then
    let* normalizedConfidence := callString c toLowerCase in
    (* validConfidenceLevels.includes(normalizedConfidence) *)
    if bool_decide (normalizedConfidence = u "low") then Ok Low
    else if bool_decide (normalizedConfidence = u "medium") then Ok Medium
    else if bool_decide (normalizedConfidence = u "high") then Ok High
    else Ok Medium                    (* console.warn, keep the default *)
  else Ok Medium.

(** Step 4: the categories. *)
Definition normalizeCategories (parsed : value) : result (list jsstring) :=
  let* cats := getProp parsed (u "categoriesFound") in
  if truthy cats then
    match cats with
    | Some (JArray xs) =>
        (* .filter(cat => typeof cat === 'string') *)
        let strings := List.filter isStringValue xs in
        (* .map(cat => cat.trim()) *)
        let* trimmed := mapM (fun cat => callString (Some cat) trim) strings in
        (* .filter(cat => cat.length > 0) *)
        Ok (List.filter (fun cat => (0 <? len cat)%Z) trimmed)
    | _ => Ok []                      (* console.warn, keep the default *)
    end
  else Ok [].

(** [ind && typeof ind.type === 'string' && ind.type.trim().length > 0] *)
Definition hasType (ind : value) : result bool :=
  if truthy (Some ind) then
    let* t := getProp ind (u "type") in
    match t with
    | Some (JString s) => Ok (0 <? len (trim s))%Z
    | _ => Ok false
    end
  else Ok false.

Fixpoint filterM {A} (p : A -> result bool) (xs : list A) : result (list A) :=
  match xs with
  | [] => Ok []
  | x :: t =>
      let* keep := p x in
      let* rest := filterM p t in
      Ok (if keep then x :: rest else rest)
  end.

(** The callback of [.map] over the kept indicators. *)
Definition normalizeIndicator (ind : value) : result AIIndicator :=
  let* t := getProp ind (u "type") in
  let* ty := callString t trim in                       (* ind.type!.trim() *)
  let* s := getProp ind (u "snippet") in
  let* sn := optCallString s trim in                    (* ind.snippet?.trim() || '' *)
  let* e := getProp ind (u "explanation") in
  let* ex := optCallString e trim in                    (* ind.explanation?.trim() || '' *)
  Ok {| type := ty; snippet := orEmpty sn; explanation := orEmpty ex |}.

(** Step 5: the indicators. *)
Definition normalizeIndicators (parsed : value) : result (list AIIndicator) :=
  let* inds := getProp parsed (u "indicators") in
  if truthy inds then
    match inds with
    | Some (JArray xs) =>
        let* kept := filterM hasType xs in
        mapM normalizeIndicator kept
    | _ => Ok []                      (* console.warn, keep the default *)
    end
  else Ok [].

(** Step 6: the reasoning. *)
Definition normalizeReasoning (parsed : value) : result jsstring :=
  let* r := getProp parsed (u "reasoning") in
  match r with
  | Some (JString s) =>
      if (0 <? len (trim s))%Z then Ok (trim s) else Ok defaultReasoning
  | _ => Ok defaultReasoning
  end.

(** Steps 2 to 7 of [parseDetectionResult], on the value that
    [JSON.parse] returned. *)
Definition normalizeParsed (parsed : value) : result DetectionResult :=
  let* flag := getProp parsed (u "aiFlag") in
  match flag with
  | Some (JBool aiFlag) =>
      let* confidence := normalizeConfidence parsed in
      let* categoriesFound := normalizeCategories parsed in
      let* indicators := normalizeIndicators parsed in
      let* reasoning := normalizeReasoning parsed in
      Ok {| aiFlag := aiFlag;
            confidence := confidence;
            categoriesFound := categoriesFound;
            indicators := indicators;
            reasoning := reasoning |}
  | _ => Throw InvalidAiFlag
  end.

(** [parseDetectionResult(responseContent)] *)
Definition parseDetectionResult (responseContent : jsstring)
    : result DetectionResult :=
  match JSON_parse responseContent with
  | None => Throw JsonParseFailure    (* the catch block rethrows *)
  | Some parsed => normalizeParsed parsed
  end.

(** [createErrorResult(errorMessage)] *)
Definition createErrorResult (errorMessage : jsstring) : DetectionResult :=
  {| aiFlag := false;
     confidence := Low;
     categoriesFound := [];
     indicators := [];
     reasoning := u "Error during analysis: " ++ errorMessage |}.

Definition noPatternsMessage : jsstring :=
  u "No AI-generated patterns detected.".

(** [createNotificationMessage(result)]; the message opens with the
    warning sign U+26A0 followed by the variation selector U+FE0F. *)
Definition createNotificationMessage (result : DetectionResult) : jsstring :=
  if negb (aiFlag result) then noPatternsMessage
  else
    let categoryCount := List.length (categoriesFound result) in
    let indicatorCount := List.length (indicators result) in
    let message :=
      [9888; 65039] ++ u " Possible AI-generated content detected (" ++
      confidenceText (confidence result) ++ u " confidence)" in
    let message :=
      if (0 <? categoryCount)%nat then
        message ++ [10; 10] ++ u "Categories found: " ++
        join (u ", ") (categoriesFound result)
      else message in
    let message :=
      if (0 <? indicatorCount)%nat then
        message ++ [10; 10] ++ ofNat indicatorCount ++
        u " specific indicator" ++
        (if (1 <? indicatorCount)%nat then u "s" else []) ++
        u " identified."
      else message in
    let message :=
      if truthy (Some (JString (reasoning result))) &&
         negb (bool_decide (reasoning result = defaultReasoning)) then
        let maxReasoningLength := 150%Z in
        let reasoning := reasoning result in
        let reasoning :=
          if (len reasoning >? maxReasoningLength)%Z
          then substring reasoning 0 maxReasoningLength ++ u "..."
          else reasoning in
        message ++ [10; 10] ++ reasoning
      else message in
    message.

(** *** What the normalizer takes for granted

    The optional fields that the code dereferences without a type test:
    [confidence] must be falsy or a string, and the [snippet] and
    [explanation] of an indicator that passes the type filter must each be
    absent, [null] or a string. *)

Definition stringOrNullish (v : option value) : bool :=
  match v with
  | None => true
  | Some JNull => true
  | Some (JString _) => true
  | Some _ => false
  end.

Definition hasBooleanFlag (parsed : value) : bool :=
  match getProp parsed (u "aiFlag") with
  | Ok (Some (JBool _)) => true
  | _ => false
  end.

Definition confidenceUsable (parsed : value) : bool :=
  match getProp parsed (u "confidence") with
  | Ok c => negb (truthy c) || match c with Some (JString _) => true | _ => false end
  | Throw _ => false
  end.

Definition fieldUsable (ind : value) (key : jsstring) : bool :=
  match getProp ind key with
  | Ok v => stringOrNullish v
  | Throw _ => false
  end.

Definition indicatorUsable (ind : value) : bool :=
  match hasType ind with
  | Ok true => fieldUsable ind (u "snippet") && fieldUsable ind (u "explanation")
  | _ => true
  end.

Definition indicatorsUsable (parsed : value) : bool :=
  match getProp parsed (u "indicators") with
  | Ok (Some (JArray xs)) => forallb indicatorUsable xs
  | _ => true
  end.

(** *** The validators

    [isValidConfidence(value)] and [isValidDetectionResult(result)] take
    any value; they are modelled on JSON values and [undefined] ([None]).
    [Array.prototype.includes] compares with strict equality, so only a
    string can be found among the three levels. *)
Definition isValidConfidence (v : option value) : bool :=
  match v with
  | Some (JString s) =>
      bool_decide (s = u "low") || bool_decide (s = u "medium") ||
      bool_decide (s = u "high")
  | _ => false
  end.

Definition isArrayValue (v : option value) : bool :=
  match v with Some (JArray _) => true | _ => false end.

Definition isValidDetectionResult (result : option value) : bool :=
  match result with
  | Some (JObject ms) =>
      match lookupMember (u "aiFlag") ms with
      | Some (JBool _) => true
      | _ => false
      end &&
      isValidConfidence (lookupMember (u "confidence") ms) &&
      isArrayValue (lookupMember (u "categoriesFound") ms) &&
      isArrayValue (lookupMember (u "indicators") ms) &&
      match lookupMember (u "reasoning") ms with
      | Some (JString _) => true
      | _ => false
      end
  | _ =>
      (* [undefined] and primitives are not objects, [null] is excluded,
         and an array has none of the five properties *)
      false
  end.

(** A [DetectionResult] as the object that the code builds: the object
    literal of [parseDetectionResult] and [createErrorResult], with the
    indicators as the object literals of the [.map] callback. *)
Definition indicatorValue (i : AIIndicator) : value :=
  JObject [ (u "type", JString (type i));
            (u "snippet", JString (snippet i));
            (u "explanation", JString (explanation i)) ].

Definition resultValue (r : DetectionResult) : value :=
  JObject [ (u "aiFlag", JBool (aiFlag r));
            (u "confidence", JString (confidenceText (confidence r)));
            (u "categoriesFound", JArray (List.map JString (categoriesFound r)));
            (u "indicators", JArray (List.map indicatorValue (indicators r)));
            (u "reasoning", JString (reasoning r)) ].

(** A string as the code leaves it after [trim()] and a length test. *)
Definition isTrimmed (s : jsstring) : bool :=
  negb (startsWithWhiteSpace s) && negb (endsWithWhiteSpace s).

Definition isLabel (s : jsstring) : bool :=
  match s with [] => false | _ :: _ => isTrimmed s end.

(** *** Replies used in the statements below *)

Definition exampleObject : value :=
  JObject
    [ (u "aiFlag", JBool true);
      (u "categoriesFound",
       JArray [ JString (u "A"); JString (u " B ");
                JNumber {| negative := false; mantissa := 7; exponent := 0 |};
                JString [] ]);
      (u "indicators",
       JArray [ JObject [ (u "type", JString (u "X"));
                          (u "snippet", JString (u "s")) ];
                JObject [ (u "snippet", JString (u "no type")) ] ]) ].

Definition exampleText : jsstring :=
  q "{'aiFlag':true,'categoriesFound':['A',' B ',7,''],'indicators':[{'type':'X','snippet':'s'},{'snippet':'no type'}]}".

Definition cleanReply : jsstring :=
  q "{'aiFlag':false,'confidence':'high','categoriesFound':[],'indicators':[],'reasoning':'clean'}".

Definition numericConfidenceReply : jsstring :=
  q "{'aiFlag':true,'confidence':5}".

Definition numericSnippetReply : jsstring :=
  q "{'aiFlag':true,'indicators':[{'type':'X','snippet':5}]}".

(** The shape of a normalized result: labels are non-empty and trimmed,
    snippets and explanations are trimmed. *)
Definition wellFormedIndicator (i : AIIndicator) : Prop :=
  isLabel (type i) = true /\
  isTrimmed (snippet i) = true /\
  isTrimmed (explanation i) = true.

Definition wellFormed (r : DetectionResult) : Prop :=
  Forall (fun c => isLabel c = true) (categoriesFound r) /\
  Forall wellFormedIndicator (indicators r) /\
  isLabel (reasoning r) = true.

End Detection.

(* ===================================================================== *)
(** ** Request handler ([api/check-ai-traces.ts]) *)
(* ===================================================================== *)

Module Handler.

Import Json Detection Sanitizer RateLimit.

Local Open Scope Z_scope.

(** The parts of [config] that the handler and the library read. *)
Record AppConfig : Type := {
  sharedSecret : jsstring;            (* config.security.sharedSecret *)
  rateLimit : RateLimit.Config;       (* config.rateLimit *)
  maxLength : Z                       (* config.textProcessing.maxLength *)
}.

(** What [detectAIContent] resolves to; the token counts are only logged. *)
Record OpenAIResponse : Type := {
  content : jsstring;
  finishReason : jsstring
}.

(** [req.method], [req.headers] and [req.body]; the body is the value that
    the platform parsed out of the request, [None] for [undefined]. *)
Record Request : Type := {
  method : option jsstring;
  headers : Headers;
  body : option value
}.

Inductive ResponseBody : Type :=
| NoBody                                              (* res.status(200).end() *)
| ErrorResponse (error code : jsstring) (retryAfter : option Z)
| SuccessResponse (result : DetectionResult).

(** The response: status, the three [X-RateLimit-*] headers (limit,
    remaining, reset) and [Retry-After] as the numbers that are printed
    into them, and the body.  The three CORS headers are the same on every
    response and left out. *)
Record Response : Type := {
  status : Z;
  rateLimitHeaders : option (Z * Z * Z);
  retryAfterHeader : option Z;
  responseBody : ResponseBody
}.

(** What one call of the handler does: the response it sends, the store it
    leaves, and the text it passed to [detectAIContent] when it called
    it. *)
Record Handled : Type := {
  response : Response;
  storeAfter : Store;
  analysed : option jsstring
}.

Definition errorResponse (st : Z) (hdrs : option (Z * Z * Z))
    (error code : jsstring) : Response :=
  {| status := st; rateLimitHeaders := hdrs; retryAfterHeader := None;
     responseBody := ErrorResponse error code None |}.

(** The [catch] block around steps 3 to 10. *)
Definition internalError (hdrs : option (Z * Z * Z)) : Response :=
  errorResponse 500 hdrs
    (u "Internal server error. Please try again later.") (u "INTERNAL_ERROR").

(** [providedSecret !== config.security.sharedSecret] is false only for a
    string with the same code units; an array is never strictly equal to a
    string. *)
Definition secretMatches (provided : option HeaderValue) (secret : jsstring)
    : bool :=
  match provided with
  | Some (HString s) => bool_decide (s = secret)
  | _ => false
  end.

(** [handler(req, res)], with the clock reading [now], the store [st] and
    the outcome of the model call as the function [detectAIContent], which
    returns a response or throws. *)
Definition handler (cfg : AppConfig)
    (detectAIContent : jsstring -> result OpenAIResponse)
    (now : Z) (req : Request) (st : Store) : Handled :=
  let done resp st' called :=
    {| response := resp; storeAfter := st'; analysed := called |} in
  (* step 1: preflight *)
  if bool_decide (method req = Some (u "OPTIONS")) then
    done {| status := 200; rateLimitHeaders := None; retryAfterHeader := None;
            responseBody := NoBody |} st None
  (* step 2 *)
  else if negb (bool_decide (method req = Some (u "POST"))) then
    done (errorResponse 405 None
            (u "Method not allowed. This endpoint only accepts POST requests.")
            (u "METHOD_NOT_ALLOWED")) st None
  else
  (* step 3 *)
  let providedSecret := headers req !! u "x-sendsafe-secret" in
  if negb (truthyHeader providedSecret) then
    done (errorResponse 401 None
            (u "Missing authentication. X-SendSafe-Secret header is required.")
            (u "MISSING_AUTH")) st None
  else if negb (secretMatches providedSecret (sharedSecret cfg)) then
    done (errorResponse 403 None
            (u "Invalid authentication credentials.") (u "INVALID_AUTH")) st None
  else
  (* step 4 *)
  match extractIPAddress (headers req) with
  | Throw _ => done (internalError None) st None
  | Ok ipAddress =>
  let '(rateLimitResult, st) := checkRateLimit (rateLimit cfg) now ipAddress st in
  let hdrs := Some (maxRequests (rateLimit cfg), remaining rateLimitResult,
                    resetTime rateLimitResult) in
  if negb (allowed rateLimitResult) then
    match retryAfter rateLimitResult with
    | None => done (internalError hdrs) st None    (* retryAfter!.toString() *)
    | Some seconds =>
        done {| status := 429; rateLimitHeaders := hdrs;
                retryAfterHeader := Some seconds;
                responseBody :=
                  ErrorResponse
                    (u "Rate limit exceeded. Maximum " ++
                     ofZ (maxRequests (rateLimit cfg)) ++ u " requests per " ++
                     ofZ (windowMinutes (rateLimit cfg)) ++ u " minutes.")
                    (u "RATE_LIMIT_EXCEEDED") (Some seconds) |} st None
    end
  else
  (* step 5: !body || !body.text *)
  let missingText :=
    done (errorResponse 400 hdrs
            (q "Bad request. Request body must include a 'text' field.")
            (u "MISSING_TEXT")) st None in
  if negb (truthy (body req)) then missingText
  else
  match (match body req with
         | Some b => getProp b (u "text")
         | None => Throw TypeError
         end) with
  | Throw _ => done (internalError hdrs) st None
  | Ok text =>
  if negb (truthy text) then missingText
  else
  (* validateText(body.text): [text.trim()] needs a string *)
  match callString text validateText with
  | Throw _ => done (internalError hdrs) st None
  | Ok validation =>
  if negb (isValid validation) then
    done (errorResponse 400 hdrs
            (match error validation with
             | Some (c :: e) => c :: e
             | _ => u "Invalid text input"
             end)
            (u "INVALID_TEXT")) st None
  else
  (* step 6 *)
  match callString text (sanitizeInput (maxLength cfg)) with
  | Throw _ => done (internalError hdrs) st None
  | Ok sanitizeResult =>
  (* step 7 *)
  let sent := Some (sanitizedText sanitizeResult) in
  match detectAIContent (sanitizedText sanitizeResult) with
  | Throw _ => done (internalError hdrs) st sent
  | Ok openaiResponse =>
  if negb (bool_decide (finishReason openaiResponse = u "stop")) &&
     bool_decide (finishReason openaiResponse = u "length") then
    done (errorResponse 500 hdrs
            (u "Analysis incomplete. Response exceeded maximum length.")
            (u "ANALYSIS_INCOMPLETE")) st sent
  else
  (* step 8 *)
  match parseDetectionResult (content openaiResponse) with
  | Throw _ =>
      done (errorResponse 500 hdrs
              (u "Failed to parse analysis results. Please try again.")
              (u "PARSE_ERROR")) st sent
  | Ok detectionResult =>
  (* step 10 *)
  done {| status := 200; rateLimitHeaders := hdrs; retryAfterHeader := None;
          responseBody := SuccessResponse detectionResult |} st sent
  end end end end end end.

(** A configuration, a request and a model reply to run the handler on. *)
Definition exampleConfig : AppConfig :=
  {| sharedSecret := u "0123456789abcdef0123456789abcdef";
     rateLimit := {| maxRequests := 10; windowMinutes := 60 |};
     maxLength := 5000 |}.

Definition exampleRequest : Request :=
  {| method := Some (u "POST");
     headers :=
       {[ u "x-sendsafe-secret" :=
            HString (u "0123456789abcdef0123456789abcdef");
          u "x-forwarded-for" := HString (u "203.0.113.7, 10.0.0.1") ]};
     body := Some (JObject [(u "text", JString (u "  Dear team, see below. "))]) |}.

Definition exampleModel (text : jsstring) : result OpenAIResponse :=
  Ok {| content := exampleText; finishReason := u "stop" |}.

End Handler.

(* ===================================================================== *)
(** * Properties *)
(* ===================================================================== *)

Import Json Detection Sanitizer RateLimit.

(* ===================================================================== *)
(** ** Strings *)
(* ===================================================================== *)

Section StringFacts.

Lemma trimStart_fixed s : startsWithWhiteSpace s = false -> trimStart s = s.
Proof. destruct s as [|c t]; simpl; [done|]. by intros ->. Qed.

Lemma trimStart_starts s : startsWithWhiteSpace (trimStart s) = false.
Proof.
  induction s as [|c t IH]; simpl; [done|].
  destruct (isWhiteSpace c) eqn:E; [done|]. simpl. by rewrite E.
Qed.

Lemma trimStart_snoc s c :
  isWhiteSpace c = false -> trimStart (s ++ [c]) = trimStart s ++ [c].
Proof.
  intros Hc. induction s as [|d t IH]; simpl.
  - by rewrite Hc.
  - destruct (isWhiteSpace d); [done|]. reflexivity.
Qed.

Lemma trimEnd_cons c t :
  isWhiteSpace c = false -> trimEnd (c :: t) = c :: trimEnd t.
Proof.
  intros Hc. unfold trimEnd. simpl.
  rewrite trimStart_snoc by done. by rewrite rev_app_distr.
Qed.

Lemma trimEnd_fixed s : endsWithWhiteSpace s = false -> trimEnd s = s.
Proof.
  unfold endsWithWhiteSpace, trimEnd. intros H.
  rewrite trimStart_fixed by done. apply rev_involutive.
Qed.

Lemma trimEnd_ends s : endsWithWhiteSpace (trimEnd s) = false.
Proof.
  unfold endsWithWhiteSpace, trimEnd. rewrite rev_involutive.
  apply trimStart_starts.
Qed.

Lemma trimEnd_starts s :
  startsWithWhiteSpace s = false -> startsWithWhiteSpace (trimEnd s) = false.
Proof.
  destruct s as [|c t]; [done|]. simpl. intros Hc.
  rewrite trimEnd_cons by done. done.
Qed.

Lemma trim_fixed s :
  startsWithWhiteSpace s = false -> endsWithWhiteSpace s = false ->
  trim s = s.
Proof.
  intros H1 H2. unfold trim. rewrite trimStart_fixed by done.
  by apply trimEnd_fixed.
Qed.

Lemma trim_starts s : startsWithWhiteSpace (trim s) = false.
Proof. apply trimEnd_starts, trimStart_starts. Qed.

Lemma trim_ends s : endsWithWhiteSpace (trim s) = false.
Proof. apply trimEnd_ends. Qed.

(** What [trim] returns is a segment of its argument. *)
Lemma trimStart_segment s : exists p, s = p ++ trimStart s.
Proof.
  induction s as [|c t [p Hp]]; simpl; [by exists []|].
  destruct (isWhiteSpace c).
  - exists (c :: p). simpl. by rewrite <- Hp.
  - by exists [].
Qed.

Lemma trim_segment s : exists p r, s = p ++ trim s ++ r.
Proof.
  unfold trim, trimEnd.
  destruct (trimStart_segment s) as [p Hp].
  destruct (trimStart_segment (rev (trimStart s))) as [r Hr].
  exists p, (rev r).
  rewrite <- rev_app_distr, <- Hr, rev_involutive. exact Hp.
Qed.

Lemma substring_from_0 s m : substring s 0 m = firstn (Z.to_nat m) s.
Proof.
  unfold substring, len. 
  replace (Z.to_nat (Z.min (Z.max 0 0) (Z.of_nat (List.length s)))) with 0%nat by lia.
  rewrite Nat.min_0_l, Nat.max_0_l, Nat.sub_0_r, drop_0.
  destruct (Z_le_gt_dec m (Z.of_nat (List.length s))).
  - f_equal. lia.
  - rewrite !firstn_all2; [done| lia | lia].
Qed.

End StringFacts.

Section SanitizerFacts.

Lemma removeControlChars_clean s :
  Forall (fun c => isControlChar c = false) (removeControlChars s).
Proof.
  induction s as [|c t IH]; simpl; [constructor|].
  destruct (isControlChar c) eqn:E; simpl; [done|]. by constructor.
Qed.

Lemma replaceCRLF_Forall (P : N -> Prop) s :
  P 10 -> Forall P s -> Forall P (replaceCRLF s).
Proof.
  intros H10.
  enough (H : (Forall P s -> Forall P (replaceCRLF s)) /\
              forall c, Forall P (c :: s) -> Forall P (replaceCRLF (c :: s)))
    by apply H.
  induction s as [|d t [IH1 IH2]].
  - split; [done|]. intros c Hc. exact Hc.
  - split; [apply IH2|].
    intros c Hc. inversion Hc as [|? ? Pc Hdt]; subst.
    change (replaceCRLF (c :: d :: t)) with
      (if (c =? 13) && (d =? 10) then 10 :: replaceCRLF t
       else c :: replaceCRLF (d :: t)).
    destruct ((c =? 13) && (d =? 10)).
    + constructor; [done|]. apply IH1. by inversion Hdt.
    + constructor; [done|]. by apply IH2.
Qed.


Lemma replaceCR_plain s :
  Forall (fun c => isControlChar c = false) s ->
  Forall (fun c => isPlain c = true) (replaceCR s).
Proof.
  induction 1 as [|c t Hc Ht IH]; simpl; constructor; [|done].
  unfold isPlain. destruct (c =? 13) eqn:E; [done|]. by rewrite Hc, E.
Qed.



(** What the scanner does to a maximal run of line feeds: a run of [n]
    becomes a run of [min n 2], which is the effect of replacing every
    match of [\n{3,}] by two line feeds; any other character is copied. *)
Lemma collapseFrom_restart run rest :
  startsWithLF rest = false -> collapseFrom run rest = collapseFrom 0 rest.
Proof. destruct rest as [|c t]; simpl; [done|]. by intros ->. Qed.

Lemma collapseFrom_run run n rest :
  (run <= 2)%nat -> startsWithLF rest = false ->
  collapseFrom run (List.repeat 10 n ++ rest) =
  List.repeat 10 (Nat.min (run + n) 2 - run) ++ collapseFrom 0 rest.
Proof.
  intros Hrun Hrest. revert run Hrun.
  induction n as [|n IH]; intros run Hrun; simpl.
  - replace (Nat.min (run + 0) 2 - run)%nat with 0%nat by lia.
    by apply collapseFrom_restart.
  - destruct (run <? 2)%nat eqn:E.
    + apply Nat.ltb_lt in E. rewrite IH by lia.
      replace (Nat.min (run + S n) 2 - run)%nat
        with (S (Nat.min (S run + n) 2 - S run)) by lia.
      done.
    + apply Nat.ltb_ge in E. rewrite IH by lia.
      f_equal. f_equal. lia.
Qed.

Lemma collapseNewlines_run n rest :
  startsWithLF rest = false ->
  collapseNewlines (List.repeat 10 n ++ rest) =
  List.repeat 10 (Nat.min n 2) ++ collapseNewlines rest.
Proof.
  intros H. unfold collapseNewlines. rewrite collapseFrom_run by (lia || done).
  f_equal. f_equal. lia.
Qed.

Lemma collapseNewlines_other c t :
  c <> 10 -> collapseNewlines (c :: t) = c :: collapseNewlines t.
Proof. intros H%N.eqb_neq. unfold collapseNewlines. simpl. by rewrite H. Qed.

Lemma collapseFrom_Forall (P : N -> Prop) run s :
  Forall P s -> Forall P (collapseFrom run s).
Proof.
  intros H. revert run. induction H as [|c t Hc Ht IH]; intros run; simpl; [done|].
  destruct (c =? 10); [destruct (run <? 2)%nat|]; try constructor; auto.
Qed.

Lemma collapseFrom_tripleFree run s :
  (run <= 2)%nat -> tripleFree run (collapseFrom run s) = true.
Proof.
  revert run. induction s as [|c t IH]; intros run Hrun; simpl; [done|].
  destruct (c =? 10) eqn:E.
  - destruct (run <? 2)%nat eqn:R.
    + simpl. rewrite E, R. simpl. apply IH. apply Nat.ltb_lt in R. lia.
    + by apply IH.
  - simpl. rewrite E. apply IH. lia.
Qed.


Lemma tripleFree_mono run run' s :
  (run' <= run)%nat -> tripleFree run s = true -> tripleFree run' s = true.
Proof.
  revert run run'. induction s as [|c t IH]; intros run run' Hle; simpl; [done|].
  destruct (c =? 10); [|done].
  intros [R H]%andb_true_iff. apply Nat.ltb_lt in R.
  apply andb_true_iff. split; [apply Nat.ltb_lt; lia|].
  apply (IH (S run)); [lia|done].
Qed.

Lemma tripleFree_app_r p s run :
  tripleFree run (p ++ s) = true -> tripleFree 0 s = true.
Proof.
  revert run. induction p as [|c t IH]; intros run; simpl.
  - apply tripleFree_mono. lia.
  - destruct (c =? 10); [|apply IH].
    intros [_ H]%andb_true_iff. by apply IH in H.
Qed.

Lemma tripleFree_app_l s r run :
  tripleFree run (s ++ r) = true -> tripleFree run s = true.
Proof.
  revert run. induction s as [|c t IH]; intros run; simpl; [done|].
  destruct (c =? 10); [|apply IH].
  intros [R H]%andb_true_iff. rewrite R. by apply IH in H.
Qed.

Lemma trim_Forall (P : N -> Prop) s : Forall P s -> Forall P (trim s).
Proof.
  destruct (trim_segment s) as (p & r & Hs). intros H.
  rewrite Hs in H. apply Forall_app in H as [_ H]. by apply Forall_app in H as [H _].
Qed.

Lemma trim_tripleFree s : tripleFree 0 s = true -> tripleFree 0 (trim s) = true.
Proof.
  destruct (trim_segment s) as (p & r & Hs). intros H.
  rewrite Hs in H. apply tripleFree_app_r in H. by apply tripleFree_app_l in H.
Qed.

(** The text that leaves the cleanup steps. *)
Lemma cleanup_plain text : Forall (fun c => isPlain c = true) (cleanup text).
Proof.
  unfold cleanup, collapseNewlines.
  apply trim_Forall, collapseFrom_Forall, replaceCR_plain.
  apply replaceCRLF_Forall; [done|]. apply removeControlChars_clean.
Qed.

Lemma cleanup_tripleFree text : tripleFree 0 (cleanup text) = true.
Proof.
  unfold cleanup, collapseNewlines.
  apply trim_tripleFree, collapseFrom_tripleFree. lia.
Qed.


Lemma trim_length s : (List.length (trim s) <= List.length s)%nat.
Proof.
  destruct (trim_segment s) as (p & r & Hs).
  rewrite Hs at 2. rewrite !length_app. lia.
Qed.

Lemma removeControlChars_length s :
  (List.length (removeControlChars s) <= List.length s)%nat.
Proof. apply filter_length_le. Qed.

Lemma replaceCRLF_length s : (List.length (replaceCRLF s) <= List.length s)%nat.
Proof.
  enough (H : (List.length (replaceCRLF s) <= List.length s)%nat /\
              forall c, (List.length (replaceCRLF (c :: s)) <= S (List.length s))%nat)
    by apply H.
  induction s as [|d t [IH1 IH2]]; [split; [done|intros c; simpl; lia]|].
  split; [apply IH2|]. intros c.
  change (replaceCRLF (c :: d :: t)) with
    (if (c =? 13) && (d =? 10) then 10 :: replaceCRLF t
     else c :: replaceCRLF (d :: t)).
  destruct ((c =? 13) && (d =? 10)); simpl.
  - lia.
  - specialize (IH2 d). simpl in IH2. lia.
Qed.

Lemma collapseFrom_length run s :
  (List.length (collapseFrom run s) <= List.length s)%nat.
Proof.
  revert run. induction s as [|c t IH]; intros run; simpl; [done|].
  destruct (c =? 10); [destruct (run <? 2)%nat|]; simpl.
  - specialize (IH (S run)). lia.
  - specialize (IH run). lia.
  - specialize (IH 0%nat). lia.
Qed.

(** The cleanup steps never make a text longer. *)
Lemma cleanup_length s : (List.length (cleanup s) <= List.length s)%nat.
Proof.
  unfold cleanup, collapseNewlines, replaceCR.
  etransitivity; [apply trim_length|].
  etransitivity; [apply collapseFrom_length|].
  rewrite length_map.
  etransitivity; [apply replaceCRLF_length|].
  etransitivity; [apply removeControlChars_length|].
  apply trim_length.
Qed.

End SanitizerFacts.

Section SanitizerTheorems.

Local Open Scope Z_scope.

Lemma sanitizeInput_fields maxLength text :
  let r := sanitizeInput maxLength text in
  sanitizedText r =
    (if len (cleanup text) >? maxLength
     then firstn (Z.to_nat maxLength) (cleanup text) else cleanup text) /\
  wasTruncated r = (len (cleanup text) >? maxLength) /\
  originalLength r = len text /\
  finalLength r = len (sanitizedText r) /\
  removedCharacters r = len text - len (cleanup text).
Proof.
  unfold sanitizeInput. fold (cleanup text).
  destruct (len (cleanup text) >? maxLength); simpl;
    rewrite ?substring_from_0; done.
Qed.

(** Claim C6, as amended.  For every input text and every configured
    limit, with [cleaned] the text after trimming, control-character
    removal, line-ending normalization, newline collapsing and
    re-trimming: [originalLength] is the length of the input,
    [finalLength] is the length of the returned text, and
    [removedCharacters] is [originalLength] minus the length of [cleaned],
    measured before truncation.  When [cleaned] is longer than
    [maxLength], [sanitizeInput] returns [wasTruncated = true], the first
    [maxLength] code units of [cleaned] (none for a negative limit) and
    [finalLength = max 0 maxLength], which is [maxLength] exactly when
    [maxLength >= 0]; otherwise it returns [wasTruncated = false],
    [cleaned] itself and [finalLength] equal to the length of
    [cleaned]. *)
Theorem sanitizeInput_truncation (maxLength : Z) (text : jsstring) :
  let r := sanitizeInput maxLength text in
  let cleaned :=
    trim (collapseNewlines (replaceCR (replaceCRLF
      (removeControlChars (trim text))))) in
  originalLength r = len text /\
  finalLength r = len (sanitizedText r) /\
  removedCharacters r = originalLength r - len cleaned /\
  (len cleaned > maxLength ->
     wasTruncated r = true /\
     sanitizedText r = firstn (Z.to_nat maxLength) cleaned /\
     finalLength r = Z.max 0 maxLength /\
     (finalLength r = maxLength <-> 0 <= maxLength)) /\
  (len cleaned <= maxLength ->
     wasTruncated r = false /\
     sanitizedText r = cleaned /\
     finalLength r = len cleaned).
Proof.
  intros r cleaned. subst cleaned. fold (cleanup text).
  destruct (sanitizeInput_fields maxLength text) as (Ht & Hw & Ho & Hf & Hr).
  fold r in Ht, Hw, Ho, Hf, Hr.
  split; [exact Ho|]. split; [exact Hf|]. split; [by rewrite Hr, Ho|].
  split.
  - intros Hlong. rewrite Hf, Hw, Ht.
    replace (len (cleanup text) >? maxLength) with true by (symmetry; lia).
    split; [done|]. split; [done|].
    unfold len in *. rewrite length_take. lia.
  - intros Hshort. rewrite Hf, Hw, Ht.
    replace (len (cleanup text) >? maxLength) with false by (symmetry; lia).
    done.
Qed.

Lemma sanitizeInput_truncation_witness :
  let text := u "  abcd efg  " in
  let r := sanitizeInput 5 text in
  let cleaned :=
    trim (collapseNewlines (replaceCR (replaceCRLF
      (removeControlChars (trim text))))) in
  len cleaned > 5 /\
  (wasTruncated r = true /\
   sanitizedText r = firstn (Z.to_nat 5) cleaned /\
   finalLength r = Z.max 0 5 /\
   (finalLength r = 5 <-> 0 <= 5)).
Proof.
  intros text r cleaned.
  assert (H : len cleaned > 5) by (vm_compute; reflexivity).
  split; [exact H|].
  exact (proj1 (proj2 (proj2 (proj2 (sanitizeInput_truncation 5 text)))) H).
Defined.

(** A negative limit is clamped by [substring]: everything is cut. *)
Remark sanitizeInput_negative_limit (maxLength : Z) (text : jsstring) :
  maxLength < 0 ->
  let r := sanitizeInput maxLength text in
  sanitizedText r = [] /\ wasTruncated r = true /\ finalLength r = 0.
Proof.
  intros Hneg r.
  destruct (sanitizeInput_fields maxLength text) as (Ht & Hw & _ & Hf & _).
  fold r in Ht, Hw, Hf.
  assert (E : (len (cleanup text) >? maxLength) = true)
    by (apply Z.gtb_lt; unfold len; lia).
  rewrite E in Ht, Hw. rewrite Hf, Ht.
  replace (Z.to_nat maxLength) with 0%nat by lia. done.
Qed.

(** Claim C6, as stated, fails for a negative configured limit: with
    [maxLength = -1] the cleaned text of three letters is longer than the
    limit and the result is marked as truncated, but [substring] clamps
    the cut to no code unit at all, so that [finalLength] is 0 and not
    [maxLength]. *)
Lemma sanitizeInput_negative_limit_counterexample :
  let text := u "abc" in
  let r := sanitizeInput (-1) text in
  let cleaned :=
    trim (collapseNewlines (replaceCR (replaceCRLF
      (removeControlChars (trim text))))) in
  len cleaned > -1 /\
  wasTruncated r = true /\
  sanitizedText r = [] /\
  finalLength r = 0 /\
  finalLength r <> -1.
Proof. vm_compute. repeat split; discriminate. Qed.

Lemma startsWithWhiteSpace_take n s :
  startsWithWhiteSpace s = false -> startsWithWhiteSpace (firstn n s) = false.
Proof. destruct n, s; simpl; done. Qed.

Lemma tripleFree_take n s :
  tripleFree 0 s = true -> tripleFree 0 (firstn n s) = true.
Proof.
  intros H. rewrite <- (firstn_skipn n s) in H.
  by apply tripleFree_app_l in H.
Qed.



Lemma sanitizeInput_removed_nonneg (maxLength : Z) (text : jsstring) :
  0 <= removedCharacters (sanitizeInput maxLength text).
Proof.
  destruct (sanitizeInput_fields maxLength text) as (_ & _ & _ & _ & ->).
  pose proof (cleanup_length text). unfold len. lia.
Qed.

(** The amended statement is as far as idempotence goes: a first pass that
    ends in whitespace is always changed by the second. *)
Lemma sanitizeInput_second_pass_trims (maxLength : Z) (text : jsstring) :
  let r1 := sanitizeInput maxLength text in
  endsWithWhiteSpace (sanitizedText r1) = true ->
  sanitizedText (sanitizeInput maxLength (sanitizedText r1)) <> sanitizedText r1.
Proof.
  intros r1. set (y := sanitizedText r1). intros Hends Heq.
  destruct (sanitizeInput_fields maxLength y) as (Ht & _).
  rewrite Heq in Ht.
  pose proof (cleanup_length y) as Hlen.
  assert (Hy : y = cleanup y).
  { destruct (len (cleanup y) >? maxLength); [|done].
    rewrite Ht at 1. apply firstn_all2.
    apply (f_equal (@List.length N)) in Ht. rewrite length_take in Ht. lia. }
  rewrite Hy in Hends. unfold cleanup in Hends. by rewrite trim_ends in Hends.
Qed.




End SanitizerTheorems.

(* ===================================================================== *)
(** ** Rate limiter *)
(* ===================================================================== *)

Local Open Scope Z_scope.

Section RateLimitFacts.

Context (cfg : Config).

(** One equation for [checkRateLimit]: the entry it leaves behind and the
    result it reports, in terms of the counter of the current window. *)
Lemma checkRateLimit_spec (now : Z) (ip : jsstring) (st : Store) :
  let c := currentCount cfg now (st !! ip) in
  let w := currentWindowStart cfg now (st !! ip) in
  let ok := c <? maxRequests cfg in
  let c' := if ok then c + 1 else c in
  checkRateLimit cfg now ip st =
    ({| allowed := ok;
        remaining := Z.max 0 (maxRequests cfg - c');
        resetTime := w + windowDuration cfg;
        retryAfter := if ok then None
                      else Some (ceilSeconds (w + windowDuration cfg - now)) |},
     <[ip := {| count := c'; windowStart := w |}]> st).
Proof.
  unfold checkRateLimit, currentCount, currentWindowStart, isExpired.
  destruct (st !! ip) as [[c0 w0]|] eqn:E; simpl.
  - destruct (now - w0 >=? windowDuration cfg); simpl.
    + destruct (0 <? maxRequests cfg); simpl; [by rewrite insert_insert_eq|done].
    + destruct (c0 <? maxRequests cfg); simpl; [done|].
      by rewrite insert_id.
  - destruct (0 <? maxRequests cfg); simpl; [by rewrite insert_insert_eq|done].
Qed.

Lemma checkRateLimit_counter (now : Z) (ip : jsstring) (st : Store) :
  let '(r, st') := checkRateLimit cfg now ip st in
  exists entry,
    st' !! ip = Some entry /\
    count entry =
      currentCount cfg now (st !! ip) + (if allowed r then 1 else 0).
Proof.
  rewrite checkRateLimit_spec. simpl.
  eexists. rewrite lookup_insert_eq. split; [done|]. simpl.
  destruct (_ <? _); lia.
Qed.

Lemma checkRateLimit_other (now : Z) (ip ip' : jsstring) (st : Store) :
  ip <> ip' -> snd (checkRateLimit cfg now ip st) !! ip' = st !! ip'.
Proof. intros H. rewrite checkRateLimit_spec. simpl. by rewrite lookup_insert_ne. Qed.

Lemma getRateLimitStatus_store (now : Z) (ip : jsstring) (st : Store) :
  snd (getRateLimitStatus cfg now ip st) = st.
Proof.
  unfold getRateLimitStatus. destruct (st !! ip) as [e|]; [|done].
  by destruct (_ >=? _).
Qed.

Lemma cleanupExpiredEntries_fold (ips : list jsstring) (n : Z) (st : Store)
    (k : jsstring) (e : RateLimitEntry) :
  snd (fold_left (fun acc ip => (fst acc + 1, delete ip (snd acc))) ips (n, st)) !! k
    = Some e -> st !! k = Some e.
Proof.
  revert n st. induction ips as [|ip ips IH]; intros n st; simpl; [done|].
  intros H. apply IH in H. simpl in H.
  apply lookup_delete_Some in H. tauto.
Qed.

Lemma cleanupExpiredEntries_sub (now : Z) (st : Store)
    (k : jsstring) (e : RateLimitEntry) :
  snd (cleanupExpiredEntries cfg now st) !! k = Some e -> st !! k = Some e.
Proof. unfold cleanupExpiredEntries. apply cleanupExpiredEntries_fold. Qed.

(** Every call keeps the counters within the limit. *)
Lemma perform_withinLimit (c : Call) (st : Store) :
  0 <= maxRequests cfg ->
  map_Forall (fun _ e => withinLimit cfg e) st ->
  map_Forall (fun _ e => withinLimit cfg e) (snd (perform cfg c st)).
Proof.
  intros Hmax Hst. destruct c as [now ip|now ip|ip| |now]; simpl.
  - destruct (checkRateLimit cfg now ip st) as [r st'] eqn:E. simpl.
    rewrite checkRateLimit_spec in E. simpl in E.
    injection E as _ <-. apply map_Forall_insert_2; [|done].
    unfold withinLimit, currentCount. simpl.
    destruct (st !! ip) as [e|] eqn:El.
    + specialize (Hst _ _ El). unfold withinLimit in Hst.
      destruct (isExpired cfg now e);
        destruct (_ <? _) eqn:L; lia.
    + destruct (_ <? _) eqn:L; lia.
  - pose proof (getRateLimitStatus_store now ip st) as H.
    destruct (getRateLimitStatus cfg now ip st) as [r st']. simpl in *. by subst.
  - by apply map_Forall_delete.
  - apply map_Forall_empty.
  - destruct (cleanupExpiredEntries cfg now st) as [n st'] eqn:E. simpl.
    intros k e Hk. apply (Hst k).
    apply (cleanupExpiredEntries_sub now). by rewrite E.
Qed.

Lemma run_withinLimit (cs : list Call) (st : Store) :
  0 <= maxRequests cfg ->
  map_Forall (fun _ e => withinLimit cfg e) st ->
  map_Forall (fun _ e => withinLimit cfg e) (snd (run cfg cs st)).
Proof.
  intros Hmax. revert st. induction cs as [|c cs IH]; intros st Hst; simpl; [done|].
  pose proof (perform_withinLimit c st Hmax Hst) as H.
  destruct (perform cfg c st) as [o st']. simpl in H.
  specialize (IH st' H). by destruct (run cfg cs st').
Qed.

Lemma run_without_peeks (cs : list Call) (st : Store) :
  run cfg (List.filter (fun c => negb (isPeek c)) cs) st =
  (List.filter (fun o => negb (isStatus o)) (fst (run cfg cs st)),
   snd (run cfg cs st)).
Proof.
  revert st. induction cs as [|c cs IH]; intros st; [done|].
  destruct c as [now ip|now ip|ip| |now]; simpl.
  - destruct (checkRateLimit cfg now ip st) as [r st']. rewrite IH.
    by destruct (run cfg cs st').
  - pose proof (getRateLimitStatus_store now ip st) as H.
    destruct (getRateLimitStatus cfg now ip st) as [r st']. simpl in H. subst st'.
    rewrite IH. by destruct (run cfg cs st).
  - rewrite IH. by destruct (run cfg cs _).
  - rewrite IH. by destruct (run cfg cs _).
  - destruct (cleanupExpiredEntries cfg now st) as [n st']. rewrite IH.
    by destruct (run cfg cs st').
Qed.

End RateLimitFacts.

Section RateLimitTheorems.

(** Claim C3.  The stored counter after a call is the counter of the
    current window, plus one exactly when the call is allowed; a blocked
    call adds nothing.  With [maxRequests = 3], no entry for the identifier
    at the start and all four calls less than one window duration after the
    first, four consecutive calls return [allowed = true, true, true,
    false] and [remaining = 2, 1, 0, 0]; the stored counter reads 1, 2, 3,
    3 and the fourth call leaves the store as it found it. *)
Theorem checkRateLimit_consumes_quota (cfg : Config) :
  (forall (now : Z) (ip : jsstring) (st : Store),
      let '(r, st') := checkRateLimit cfg now ip st in
      exists entry,
        st' !! ip = Some entry /\
        count entry =
          currentCount cfg now (st !! ip) + (if allowed r then 1 else 0)) /\
  (forall (ip : jsstring) (st0 : Store) (t1 t2 t3 t4 : Z),
      maxRequests cfg = 3 ->
      st0 !! ip = None ->
      t2 - t1 < windowDuration cfg ->
      t3 - t1 < windowDuration cfg ->
      t4 - t1 < windowDuration cfg ->
      let '(r1, st1) := checkRateLimit cfg t1 ip st0 in
      let '(r2, st2) := checkRateLimit cfg t2 ip st1 in
      let '(r3, st3) := checkRateLimit cfg t3 ip st2 in
      let '(r4, st4) := checkRateLimit cfg t4 ip st3 in
      List.map allowed [r1; r2; r3; r4] = [true; true; true; false] /\
      List.map remaining [r1; r2; r3; r4] = [2; 1; 0; 0] /\
      List.map (fun st : Store => count <$> st !! ip) [st1; st2; st3; st4]
        = [Some 1; Some 2; Some 3; Some 3] /\
      st4 = st3).
Proof.
  split; [intros now ip st; apply checkRateLimit_counter|].
  intros ip st0 t1 t2 t3 t4 Hmax Hnew H2 H3 H4.
  assert (Hstep : forall (t c : Z) (st : Store),
             st !! ip = Some {| count := c; windowStart := t1 |} ->
             t - t1 < windowDuration cfg ->
             checkRateLimit cfg t ip st =
             ({| allowed := c <? 3;
                 remaining := Z.max 0 (3 - (if c <? 3 then c + 1 else c));
                 resetTime := t1 + windowDuration cfg;
                 retryAfter := if c <? 3 then None
                               else Some (ceilSeconds (t1 + windowDuration cfg - t)) |},
              <[ip := {| count := (if c <? 3 then c + 1 else c);
                         windowStart := t1 |}]> st)).
  { intros t c st Hsome Ht. rewrite checkRateLimit_spec. simpl.
    rewrite Hsome, Hmax. unfold currentCount, currentWindowStart, isExpired.
    simpl.
    replace (t - t1 >=? windowDuration cfg) with false by (symmetry; lia).
    done. }
  rewrite checkRateLimit_spec. simpl. rewrite Hnew, Hmax. simpl.
  rewrite (Hstep t2 1) by (done || apply lookup_insert_eq). simpl.
  rewrite (Hstep t3 2) by (done || apply lookup_insert_eq). simpl.
  rewrite (Hstep t4 3) by (done || apply lookup_insert_eq). simpl.
  rewrite !lookup_insert_eq. simpl.
  repeat split. by rewrite !insert_insert_eq.
Qed.

Lemma checkRateLimit_consumes_quota_witness :
  let cfg := {| maxRequests := 3; windowMinutes := 60 |} in
  let ip := u "203.0.113.7" in
  (maxRequests cfg = 3 /\ (∅ : Store) !! ip = None /\
   10 - 0 < windowDuration cfg /\ 20 - 0 < windowDuration cfg /\
   30 - 0 < windowDuration cfg) /\
  let '(r1, st1) := checkRateLimit cfg 0 ip ∅ in
  let '(r2, st2) := checkRateLimit cfg 10 ip st1 in
  let '(r3, st3) := checkRateLimit cfg 20 ip st2 in
  let '(r4, st4) := checkRateLimit cfg 30 ip st3 in
  List.map allowed [r1; r2; r3; r4] = [true; true; true; false] /\
  List.map remaining [r1; r2; r3; r4] = [2; 1; 0; 0] /\
  List.map (fun st : Store => count <$> st !! ip) [st1; st2; st3; st4]
    = [Some 1; Some 2; Some 3; Some 3] /\
  st4 = st3.
Proof.
  intros cfg ip.
  assert (H : maxRequests cfg = 3 /\ (∅ : Store) !! ip = None /\
   10 - 0 < windowDuration cfg /\ 20 - 0 < windowDuration cfg /\
   30 - 0 < windowDuration cfg).
  { repeat split; vm_compute; reflexivity. }
  split; [exact H|].
  destruct H as (H1 & H2 & H3 & H4 & H5).
  exact (proj2 (checkRateLimit_consumes_quota cfg) ip ∅ 0 10 20 30 H1 H2 H3 H4 H5).
Defined.

(** Claim C4.  [getRateLimitStatus] leaves the store exactly as it was,
    for every identifier and every store.  Hence in any sequence of calls
    the status queries can be deleted without changing the outcome of any
    other call or the final store.  For an identifier that has no entry, or
    whose window has run out, it reports [allowed = true] and
    [remaining = maxRequests] for a window that would start at [now]. *)
Theorem getRateLimitStatus_read_only (cfg : Config) :
  (forall (now : Z) (ip : jsstring) (st : Store),
      snd (getRateLimitStatus cfg now ip st) = st) /\
  (forall (cs : list Call) (st : Store),
      run cfg (List.filter (fun c => negb (isPeek c)) cs) st =
      (List.filter (fun o => negb (isStatus o)) (fst (run cfg cs st)),
       snd (run cfg cs st))) /\
  (forall (now : Z) (ip : jsstring) (st : Store),
      st !! ip = None \/
      (exists entry, st !! ip = Some entry /\
                     now - windowStart entry >= windowDuration cfg) ->
      fst (getRateLimitStatus cfg now ip st) = fullQuota cfg now).
Proof.
  split; [apply getRateLimitStatus_store|].
  split; [apply run_without_peeks|].
  intros now ip st [Hnone|(entry & Hsome & Hold)]; unfold getRateLimitStatus.
  - by rewrite Hnone.
  - rewrite Hsome.
    replace (now - windowStart entry >=? windowDuration cfg) with true
      by (symmetry; lia).
    done.
Qed.

Lemma getRateLimitStatus_read_only_witness :
  let cfg := {| maxRequests := 10; windowMinutes := 60 |} in
  let ip := u "203.0.113.7" in
  let st : Store := {[ ip := {| count := 10; windowStart := 0 |} ]} in
  (exists entry, st !! ip = Some entry /\
                 3600000 - windowStart entry >= windowDuration cfg) /\
  fst (getRateLimitStatus cfg 3600000 ip st) = fullQuota cfg 3600000.
Proof.
  intros cfg ip st.
  assert (H : exists entry, st !! ip = Some entry /\
                 3600000 - windowStart entry >= windowDuration cfg).
  { exists {| count := 10; windowStart := 0 |}. split.
    - apply lookup_singleton_eq.
    - vm_compute. discriminate. }
  split; [exact H|].
  exact (proj2 (proj2 (getRateLimitStatus_read_only cfg)) 3600000 ip st (or_intror H)).
Defined.

(** Claim C5.  For [maxRequests >= 1], when the identifier has used up its
    quota and its window has run out ([now - windowStart >= windowDuration]),
    the next [checkRateLimit] is allowed with [remaining = maxRequests - 1],
    and the entry is rewritten with the counter reset (now 1, counting this
    call) and the window anchored at [now]. *)
Theorem checkRateLimit_window_reset (cfg : Config) (now : Z) (ip : jsstring)
    (st : Store) (entry : RateLimitEntry) :
  1 <= maxRequests cfg ->
  st !! ip = Some entry ->
  count entry = maxRequests cfg ->
  now - windowStart entry >= windowDuration cfg ->
  let '(r, st') := checkRateLimit cfg now ip st in
  allowed r = true /\
  remaining r = maxRequests cfg - 1 /\
  resetTime r = now + windowDuration cfg /\
  retryAfter r = None /\
  st' = <[ip := {| count := 1; windowStart := now |}]> st.
Proof.
  intros Hmax Hsome Hfull Hold.
  rewrite checkRateLimit_spec. simpl.
  rewrite Hsome. unfold currentCount, currentWindowStart, isExpired.
  replace (now - windowStart entry >=? windowDuration cfg) with true
    by (symmetry; lia).
  replace (0 <? maxRequests cfg) with true by (symmetry; lia).
  simpl. repeat split. lia.
Qed.

Lemma checkRateLimit_window_reset_witness :
  let cfg := {| maxRequests := 10; windowMinutes := 60 |} in
  let ip := u "203.0.113.7" in
  let entry := {| count := 10; windowStart := 0 |} in
  let st : Store := {[ ip := entry ]} in
  (1 <= maxRequests cfg /\ st !! ip = Some entry /\
   count entry = maxRequests cfg /\
   3600000 - windowStart entry >= windowDuration cfg) /\
  let '(r, st') := checkRateLimit cfg 3600000 ip st in
  allowed r = true /\
  remaining r = maxRequests cfg - 1 /\
  resetTime r = 3600000 + windowDuration cfg /\
  retryAfter r = None /\
  st' = <[ip := {| count := 1; windowStart := 3600000 |}]> st.
Proof.
  intros cfg ip entry st.
  assert (H : 1 <= maxRequests cfg /\ st !! ip = Some entry /\
   count entry = maxRequests cfg /\
   3600000 - windowStart entry >= windowDuration cfg).
  { split; [vm_compute; discriminate|]. split; [apply lookup_singleton_eq|].
    split; [reflexivity|]. vm_compute. discriminate. }
  split; [exact H|].
  destruct H as (H1 & H2 & H3 & H4).
  exact (checkRateLimit_window_reset cfg 3600000 ip st entry H1 H2 H3 H4).
Defined.

(** Claim C9.  With [maxRequests >= 0], after any finite sequence of
    [checkRateLimit], [getRateLimitStatus], [resetRateLimit],
    [clearAllRateLimits] and [cleanupExpiredEntries] calls on the empty
    store, every entry has [0 <= count <= maxRequests]; so the clamp
    [Math.max(0, maxRequests - count)] is the identity on it, and both
    [checkRateLimit] and [getRateLimitStatus] (inside an active window)
    report [remaining = maxRequests - count] for the stored counter. *)
Theorem store_counts_within_limit (cfg : Config) (cs : list Call) :
  0 <= maxRequests cfg ->
  let st := snd (run cfg cs ∅) in
  (forall (ip : jsstring) (entry : RateLimitEntry),
      st !! ip = Some entry ->
      0 <= count entry <= maxRequests cfg /\
      Z.max 0 (maxRequests cfg - count entry) = maxRequests cfg - count entry) /\
  (forall (now : Z) (ip : jsstring),
      let '(r, st') := checkRateLimit cfg now ip st in
      exists entry,
        st' !! ip = Some entry /\
        remaining r = maxRequests cfg - count entry) /\
  (forall (now : Z) (ip : jsstring) (entry : RateLimitEntry),
      st !! ip = Some entry ->
      now - windowStart entry < windowDuration cfg ->
      remaining (fst (getRateLimitStatus cfg now ip st))
        = maxRequests cfg - count entry).
Proof.
  intros Hmax st.
  assert (Hinv : map_Forall (fun _ e => withinLimit cfg e) st).
  { apply run_withinLimit; [done|]. apply map_Forall_empty. }
  split; [|split].
  - intros ip entry Hsome. specialize (Hinv _ _ Hsome).
    unfold withinLimit in Hinv. lia.
  - intros now ip.
    pose proof (perform_withinLimit cfg (CheckRateLimit now ip) st Hmax Hinv) as Hafter.
    simpl in Hafter.
    pose proof (checkRateLimit_spec cfg now ip st) as Hspec. simpl in Hspec.
    destruct (checkRateLimit cfg now ip st) as [r st']. simpl in Hafter.
    injection Hspec as -> ->.
    eexists. rewrite lookup_insert_eq. split; [done|]. simpl.
    specialize (Hafter ip _ (lookup_insert_eq _ _ _)).
    unfold withinLimit in Hafter. simpl in Hafter. lia.
  - intros now ip entry Hsome Hactive. specialize (Hinv _ _ Hsome).
    unfold withinLimit in Hinv. unfold getRateLimitStatus. rewrite Hsome.
    replace (now - windowStart entry >=? windowDuration cfg) with false
      by (symmetry; lia).
    simpl. lia.
Qed.

Lemma store_counts_within_limit_witness :
  let cfg := {| maxRequests := 2; windowMinutes := 1 |} in
  let ip := u "203.0.113.7" in
  let cs := [CheckRateLimit 0 ip; CheckRateLimit 1 ip; CheckRateLimit 2 ip;
             GetRateLimitStatus 3 ip; CleanupExpiredEntries 4;
             ResetRateLimit (u "198.51.100.1"); CheckRateLimit 5 ip] in
  0 <= maxRequests cfg /\
  forall (ip' : jsstring) (entry : RateLimitEntry),
    snd (run cfg cs ∅) !! ip' = Some entry ->
    0 <= count entry <= maxRequests cfg /\
    Z.max 0 (maxRequests cfg - count entry) = maxRequests cfg - count entry.
Proof.
  intros cfg ip cs.
  assert (H : 0 <= maxRequests cfg) by (vm_compute; discriminate).
  split; [exact H|].
  exact (proj1 (store_counts_within_limit cfg cs H)).
Defined.

End RateLimitTheorems.

(* ===================================================================== *)
(** ** [JSON.parse]: consumption and fuel *)
(* ===================================================================== *)

Section ParserFuel.

Local Open Scope nat_scope.

Lemma skipSpace_length s : List.length (skipSpace s) <= List.length s.
Proof.
  induction s as [|c t IH]; simpl; [done|].
  destruct (isJsonSpace c); simpl; lia.
Qed.

Lemma stripPrefix_length p s r :
  stripPrefix p s = Some r -> List.length r + List.length p = List.length s.
Proof.
  revert s. induction p as [|a p IH]; intros [|b s]; simpl; try done.
  - by intros [= <-].
  - intros [= <-]. simpl. lia.
  - destruct (a =? b)%N; [|done]. intros H%IH. lia.
Qed.

Lemma spanDigits_length s ds r :
  spanDigits s = (ds, r) -> List.length r + List.length ds = List.length s.
Proof.
  revert ds r. induction s as [|c t IH]; intros ds r; simpl.
  - by intros [= <- <-].
  - destruct (isDigit c).
    + destruct (spanDigits t) as [ds' r'] eqn:E. intros [= <- <-].
      specialize (IH _ _ eq_refl). simpl. lia.
    + by intros [= <- <-].
Qed.

Lemma parseStringBody_length s str r :
  parseStringBody s = Some (str, r) -> List.length r < List.length s.
Proof.
  remember (List.length s) as n eqn:Hn. revert s str r Hn.
  induction n as [n IH] using lt_wf_ind. intros s str r Hn.
  destruct s as [|c t]; simpl; [done|].
  destruct (c =? 34)%N; [intros [= <- <-]; simpl in *; lia|].
  destruct (c =? 92)%N.
  - destruct t as [|e t1]; [done|].
    destruct (e =? 117)%N.
    + destruct t1 as [|h1 [|h2 [|h3 [|h4 t2]]]]; try done.
      destruct (hexValue h1), (hexValue h2), (hexValue h3), (hexValue h4);
        try done.
      destruct (parseStringBody t2) as [[str' r']|] eqn:E; [|done].
      intros [= <- <-]. apply (IH (List.length t2)) in E; simpl in *; lia.
    + destruct (simpleEscape e); [|done].
      destruct (parseStringBody t1) as [[str' r']|] eqn:E; [|done].
      intros [= <- <-]. apply (IH (List.length t1)) in E; simpl in *; lia.
  - destruct (c <? 32)%N; [done|].
    destruct (parseStringBody t) as [[str' r']|] eqn:E; [|done].
    intros [= <- <-]. apply (IH (List.length t)) in E; simpl in *; lia.
Qed.

Lemma parseNumber_length s n r :
  parseNumber s = Some (n, r) -> List.length r < List.length s.
Proof.
  unfold parseNumber.
  set (signed := match s with
                 | [] => (false, s)
                 | c :: t => if (c =? 45)%N then (true, t) else (false, s)
                 end).
  assert (Hs : List.length (snd signed) <= List.length s).
  { subst signed. destruct s as [|c t]; simpl; [done|].
    destruct (c =? 45)%N; simpl; lia. }
  destruct signed as [neg s1]. simpl in Hs.
  set (intPart := match s1 with
                  | [] => None
                  | c :: t => if (c =? 48)%N then Some ([0%N], t)
                              else if isDigit c then Some (spanDigits s1)
                              else None
                  end).
  assert (Hi : forall ints s2, intPart = Some (ints, s2) -> List.length s2 < List.length s1).
  { subst intPart. intros ints s2. destruct s1 as [|c t]; [done|].
    destruct (c =? 48)%N; [intros [= <- <-]; simpl; lia|].
    destruct (isDigit c) eqn:Ed; [|done].
    intros [= H]. simpl in H. rewrite Ed in H.
    destruct (spanDigits t) as [ds' r'] eqn:E. injection H as <- <-.
    apply spanDigits_length in E. simpl. lia. }
  destruct intPart as [[ints s2]|]; [|done].
  specialize (Hi _ _ eq_refl).
  set (fracPart := match s2 with
                   | [] => Some ([], s2)
                   | c :: t =>
                       if (c =? 46)%N then
                         match spanDigits t with
                         | ([], _) => None
                         | (fs, r) => Some (fs, r)
                         end
                       else Some ([], s2)
                   end).
  assert (Hf : forall fracs s3, fracPart = Some (fracs, s3) -> List.length s3 <= List.length s2).
  { subst fracPart. intros fracs s3. destruct s2 as [|c t]; [by intros [= <- <-]|].
    destruct (c =? 46)%N; [|by intros [= <- <-]].
    destruct (spanDigits t) as [[|d ds] r'] eqn:E; [done|].
    intros [= <- <-]. apply spanDigits_length in E. simpl in *. lia. }
  destruct fracPart as [[fracs s3]|]; [|done].
  specialize (Hf _ _ eq_refl).
  set (expPart := match s3 with
                  | [] => Some (0%Z, s3)
                  | c :: t => _
                  end).
  assert (He : forall e s4, expPart = Some (e, s4) -> List.length s4 <= List.length s3).
  { subst expPart. intros e s4. destruct s3 as [|c t]; [by intros [= <- <-]|].
    destruct ((c =? 101)%N || (c =? 69)%N); [|by intros [= <- <-]].
    set (sign := match t with
                 | [] => (false, t)
                 | d :: t' => _
                 end).
    assert (Hsg : List.length (snd sign) <= List.length t).
    { subst sign. destruct t as [|d t']; simpl; [done|].
      destruct (d =? 45)%N; [simpl; lia|]. destruct (d =? 43)%N; simpl; lia. }
    destruct sign as [eneg t0]. simpl in Hsg.
    destruct (spanDigits t0) as [[|d ds] r'] eqn:E; [done|].
    intros [= <- <-]. apply spanDigits_length in E. simpl in *. lia. }
  destruct expPart as [[e s4]|]; [|done].
  specialize (He _ _ eq_refl).
  intros [= <- <-]. lia.
Qed.

Lemma parseScalar_length s v r :
  parseScalar s = Some (v, r) -> List.length r < List.length s.
Proof.
  unfold parseScalar. destruct s as [|c t]; [done|].
  destruct (c =? 34)%N.
  - destruct (parseStringBody t) as [[str r']|] eqn:E; [|done].
    intros [= <- <-]. apply parseStringBody_length in E. simpl. lia.
  - destruct (stripPrefix (u "true") (c :: t)) eqn:E1.
    { intros [= <- <-]. apply stripPrefix_length in E1. simpl in *. lia. }
    destruct (stripPrefix (u "false") (c :: t)) eqn:E2.
    { intros [= <- <-]. apply stripPrefix_length in E2. simpl in *. lia. }
    destruct (stripPrefix (u "null") (c :: t)) eqn:E3.
    { intros [= <- <-]. apply stripPrefix_length in E3. simpl in *. lia. }
    destruct (parseNumber (c :: t)) as [[n r']|] eqn:E4; [|done].
    intros [= <- <-]. by apply parseNumber_length in E4.
Qed.

(** One step of each parser. *)
Lemma parseValue_S fuel s :
  parseValue (S fuel) s =
    match skipSpace s with
    | [] => None
    | c :: t =>
        if (c =? 91)%N then
          match skipSpace t with
          | [] => None
          | d :: r =>
              if (d =? 93)%N then Some (JArray [], r)
              else
                match parseElements fuel t with
                | Some (xs, r') => Some (JArray xs, r')
                | None => None
                end
          end
        else if (c =? 123)%N then
          match skipSpace t with
          | [] => None
          | d :: r =>
              if (d =? 125)%N then Some (JObject [], r)
              else
                match parseMembers fuel t with
                | Some (ms, r') => Some (JObject ms, r')
                | None => None
                end
          end
        else parseScalar (c :: t)
    end.
Proof. reflexivity. Qed.

Lemma parseElements_S fuel s :
  parseElements (S fuel) s =
    match parseValue fuel s with
    | None => None
    | Some (v, r) =>
        match skipSpace r with
        | [] => None
        | d :: r' =>
            if (d =? 44)%N then
              match parseElements fuel r' with
              | Some (vs, r'') => Some (v :: vs, r'')
              | None => None
              end
            else if (d =? 93)%N then Some ([v], r')
            else None
        end
    end.
Proof. reflexivity. Qed.

Lemma parseMembers_S fuel s :
  parseMembers (S fuel) s =
    match skipSpace s with
    | [] => None
    | c :: t =>
        if (c =? 34)%N then
          match parseStringBody t with
          | None => None
          | Some (key, r) =>
              match skipSpace r with
              | [] => None
              | d :: r1 =>
                  if (d =? 58)%N then
                    match parseValue fuel r1 with
                    | None => None
                    | Some (v, r2) =>
                        match skipSpace r2 with
                        | [] => None
                        | e :: r3 =>
                            if (e =? 44)%N then
                              match parseMembers fuel r3 with
                              | Some (ms, r4) => Some ((key, v) :: ms, r4)
                              | None => None
                              end
                            else if (e =? 125)%N then Some ([(key, v)], r3)
                            else None
                        end
                    end
                  else None
              end
          end
        else None
    end.
Proof. reflexivity. Qed.

(** Every successful parse consumes input. *)
Lemma parse_length fuel :
  (forall s v r, parseValue fuel s = Some (v, r) -> List.length r < List.length s) /\
  (forall s vs r, parseElements fuel s = Some (vs, r) -> List.length r < List.length s) /\
  (forall s ms r, parseMembers fuel s = Some (ms, r) -> List.length r < List.length s).
Proof.
  induction fuel as [|fuel (IHv & IHe & IHm)]; [done|].
  split; [|split].
  - intros s v r. rewrite parseValue_S.
    pose proof (skipSpace_length s) as Hs.
    destruct (skipSpace s) as [|c t]; [done|]. simpl in Hs.
    destruct (c =? 91)%N; [|destruct (c =? 123)%N].
    + pose proof (skipSpace_length t) as Ht.
      destruct (skipSpace t) as [|d r0]; [done|]. simpl in Ht.
      destruct (d =? 93)%N; [intros [= <- <-]; lia|].
      destruct (parseElements fuel t) as [[xs r']|] eqn:E; [|done].
      intros [= <- <-]. apply IHe in E. lia.
    + pose proof (skipSpace_length t) as Ht.
      destruct (skipSpace t) as [|d r0]; [done|]. simpl in Ht.
      destruct (d =? 125)%N; [intros [= <- <-]; lia|].
      destruct (parseMembers fuel t) as [[ms r']|] eqn:E; [|done].
      intros [= <- <-]. apply IHm in E. lia.
    + intros H%parseScalar_length. simpl in H. lia.
  - intros s vs r. rewrite parseElements_S.
    destruct (parseValue fuel s) as [[v r0]|] eqn:E; [|done].
    apply IHv in E.
    pose proof (skipSpace_length r0) as Hr.
    destruct (skipSpace r0) as [|d r']; [done|]. simpl in Hr.
    destruct (d =? 44)%N; [|destruct (d =? 93)%N; [|done]].
    + destruct (parseElements fuel r') as [[vs' r'']|] eqn:E'; [|done].
      intros [= <- <-]. apply IHe in E'. lia.
    + intros [= <- <-]. lia.
  - intros s ms r. rewrite parseMembers_S.
    pose proof (skipSpace_length s) as Hs.
    destruct (skipSpace s) as [|c t]; [done|]. simpl in Hs.
    destruct (c =? 34)%N; [|done].
    destruct (parseStringBody t) as [[key r0]|] eqn:Ek; [|done].
    apply parseStringBody_length in Ek.
    pose proof (skipSpace_length r0) as Hr0.
    destruct (skipSpace r0) as [|d r1]; [done|]. simpl in Hr0.
    destruct (d =? 58)%N; [|done].
    destruct (parseValue fuel r1) as [[v r2]|] eqn:Ev; [|done].
    apply IHv in Ev.
    pose proof (skipSpace_length r2) as Hr2.
    destruct (skipSpace r2) as [|e r3]; [done|]. simpl in Hr2.
    destruct (e =? 44)%N; [|destruct (e =? 125)%N; [|done]].
    + destruct (parseMembers fuel r3) as [[ms' r4]|] eqn:Em; [|done].
      intros [= <- <-]. apply IHm in Em. lia.
    + intros [= <- <-]. lia.
Qed.

(** Beyond twice the length of the text, more fuel changes nothing. *)
Lemma parse_fuel fuel :
  (forall s fuel', 2 * List.length s + 1 <= fuel -> fuel <= fuel' ->
     parseValue fuel' s = parseValue fuel s) /\
  (forall s fuel', 2 * List.length s + 2 <= fuel -> fuel <= fuel' ->
     parseElements fuel' s = parseElements fuel s) /\
  (forall s fuel', 2 * List.length s + 2 <= fuel -> fuel <= fuel' ->
     parseMembers fuel' s = parseMembers fuel s).
Proof.
  induction fuel as [|fuel (IHv & IHe & IHm)].
  { repeat split; intros; lia. }
  destruct (parse_length fuel) as (Lv & _ & _).
  split; [|split].
  - intros s [|fuel'] Hb Hle; [lia|]. rewrite !parseValue_S.
    pose proof (skipSpace_length s) as Hs.
    destruct (skipSpace s) as [|c t]; [done|]. simpl in Hs.
    destruct (c =? 91)%N; [|destruct (c =? 123)%N; [|done]].
    + destruct (skipSpace t) as [|d r0]; [done|].
      destruct (d =? 93)%N; [done|]. by rewrite (IHe t fuel') by lia.
    + destruct (skipSpace t) as [|d r0]; [done|].
      destruct (d =? 125)%N; [done|]. by rewrite (IHm t fuel') by lia.
  - intros s [|fuel'] Hb Hle; [lia|]. rewrite !parseElements_S.
    rewrite (IHv s fuel') by lia.
    destruct (parseValue fuel s) as [[v r0]|] eqn:E; [|done].
    apply Lv in E.
    pose proof (skipSpace_length r0) as Hr.
    destruct (skipSpace r0) as [|d r']; [done|]. simpl in Hr.
    destruct (d =? 44)%N; [|done].
    by rewrite (IHe r' fuel') by lia.
  - intros s [|fuel'] Hb Hle; [lia|]. rewrite !parseMembers_S.
    pose proof (skipSpace_length s) as Hs.
    destruct (skipSpace s) as [|c t]; [done|]. simpl in Hs.
    destruct (c =? 34)%N; [|done].
    destruct (parseStringBody t) as [[key r0]|] eqn:Ek; [|done].
    apply parseStringBody_length in Ek.
    pose proof (skipSpace_length r0) as Hr0.
    destruct (skipSpace r0) as [|d r1]; [done|]. simpl in Hr0.
    destruct (d =? 58)%N; [|done].
    rewrite (IHv r1 fuel') by lia.
    destruct (parseValue fuel r1) as [[v r2]|] eqn:Ev; [|done].
    apply Lv in Ev.
    pose proof (skipSpace_length r2) as Hr2.
    destruct (skipSpace r2) as [|e r3]; [done|]. simpl in Hr2.
    destruct (e =? 44)%N; [|done].
    by rewrite (IHm r3 fuel') by lia.
Qed.

(** [JSON_parse] gives the parser all the fuel it can use: its answer is
    the answer for every larger amount, so a [None] is a syntax error of
    the text and never an exhausted counter. *)
Lemma parseValue_fuel (text : jsstring) (fuel : nat) :
  2 * List.length text + 2 <= fuel ->
  parseValue fuel text = parseValue (2 * List.length text + 2) text.
Proof.
  intros H. destruct (parse_fuel (2 * List.length text + 2)) as (Hv & _ & _).
  apply Hv; lia.
Qed.

End ParserFuel.

(* ===================================================================== *)
(** ** Client identifier and response normalizer *)
(* ===================================================================== *)

Section ClientIdentifier.

(** Claim C10 fails on an empty array: it is truthy, its element 0 is
    [undefined], and calling [split] on that throws.  The claim says a
    string is returned for every header mapping, empty arrays included. *)
Theorem extractIPAddress_empty_array_throws :
  extractIPAddress {[ u "x-forwarded-for" := HArray [] ]} = Throw TypeError /\
  extractIPAddress {[ u "x-real-ip" := HArray [] ]} = Throw TypeError /\
  extractIPAddress
    (<[ u "x-forwarded-for" := HArray [] ]>
       {[ u "x-real-ip" := HString (u "203.0.113.7") ]}) = Throw TypeError.
Proof.
  split; [|split].
  - reflexivity.
  - reflexivity.
  - unfold extractIPAddress. rewrite lookup_insert_eq. reflexivity.
Qed.

Lemma extractIPAddress_unknown (headers : Headers) :
  headers !! u "x-forwarded-for" = None ->
  headers !! u "x-real-ip" = None ->
  headers !! u "cf-connecting-ip" = None ->
  headers !! u "x-client-ip" = None ->
  extractIPAddress headers = Ok (u "unknown").
Proof. intros H1 H2 H3 H4. unfold extractIPAddress. by rewrite H1, H2, H3, H4. Qed.

Lemma onString_returns {A} (v : option HeaderValue) (m : jsstring -> A) :
  v <> Some (HArray []) -> truthyHeader v = true ->
  returns (onString (v ≫= firstIfArray) m).
Proof.
  intros Hne Ht. destruct v as [[s|[|x xs]]|]; simpl in *; try done;
    eexists; reflexivity.
Qed.

(** The function is total on header mappings that hold no empty array. *)
Lemma extractIPAddress_returns (headers : Headers) :
  (forall name : jsstring, headers !! name <> Some (HArray [])) ->
  returns (extractIPAddress headers).
Proof.
  intros Hne. unfold extractIPAddress.
  destruct (truthyHeader (headers !! u "x-forwarded-for")) eqn:E1;
    [by apply onString_returns|].
  destruct (truthyHeader (headers !! u "x-real-ip")) eqn:E2;
    [by apply onString_returns|].
  destruct (truthyHeader (headers !! u "cf-connecting-ip")) eqn:E3;
    [by apply onString_returns|].
  destruct (truthyHeader (headers !! u "x-client-ip")) eqn:E4;
    [by apply onString_returns|].
  eexists; reflexivity.
Qed.

End ClientIdentifier.

Section Normalizer.

(** Claim C7.  On the parsed object of the example (which is what
    [JSON.parse] makes of the example text) the normalizer returns the
    categories [A] and [B] in that order, the number and the empty string
    dropped and the blanks trimmed, and exactly one indicator, of type [X];
    the indicator without a type is dropped. *)
Theorem normalize_filters_categories_and_indicators :
  JSON_parse exampleText = Some exampleObject /\
  normalizeParsed exampleObject =
    Ok {| aiFlag := true;
          confidence := Medium;
          categoriesFound := [u "A"; u "B"];
          indicators :=
            [ {| type := u "X"; snippet := u "s"; explanation := [] |} ];
          reasoning := u "No reasoning provided" |}.
Proof. split; vm_compute; reflexivity. Qed.

(** Claim C8.  Whatever the confidence, categories, indicators and
    reasoning of a result are, when its flag is false the message is the
    fixed sentence; and the raw reply of the scenario normalizes to a result
    with the flag false, whose message is that sentence. *)
Theorem createNotificationMessage_unflagged :
  (forall (c : Confidence) (cats : list jsstring) (inds : list AIIndicator)
          (why : jsstring),
      createNotificationMessage
        {| aiFlag := false; confidence := c; categoriesFound := cats;
           indicators := inds; reasoning := why |}
      = u "No AI-generated patterns detected.") /\
  (exists r : DetectionResult,
      parseDetectionResult cleanReply = Ok r /\
      r = {| aiFlag := false; confidence := High; categoriesFound := [];
             indicators := []; reasoning := u "clean" |} /\
      createNotificationMessage r = u "No AI-generated patterns detected.").
Proof.
  split; [reflexivity|].
  eexists. split; [vm_compute; reflexivity|]. split; reflexivity.
Qed.

Lemma returns_Ok {A} (a : A) : returns (Ok a).
Proof. by exists a. Qed.

Lemma returns_Throw {A} (e : exn) : ~ returns (@Throw A e).
Proof. by intros [a H]. Qed.

Lemma returns_bind {A B} (m : result A) (k : A -> result B) :
  returns (JS.bind m k) <-> exists a, m = Ok a /\ returns (k a).
Proof.
  destruct m as [a|e]; simpl.
  - split; [intros H; by exists a|]. by intros (a' & [= <-] & H).
  - split; [by intros [b H]|]. by intros (a' & H & _).
Qed.

Lemma mapM_returns {A B} (f : A -> result B) (xs : list A) :
  returns (mapM f xs) <-> Forall (fun x => returns (f x)) xs.
Proof.
  induction xs as [|x t IH]; simpl.
  - split; [constructor|intros _; apply returns_Ok].
  - rewrite returns_bind. split.
    + intros (y & Hy & Hrest). apply returns_bind in Hrest as (ys & Hys & _).
      constructor; [by exists y|]. apply IH. by exists ys.
    + intros H. inversion H as [|? ? [y Hy] Ht]; subst.
      exists y. split; [done|]. apply returns_bind.
      apply IH in Ht as [ys Hys]. exists ys. split; [done|apply returns_Ok].
Qed.

Lemma filterM_total {A} (p : A -> result bool) (xs : list A) :
  (forall x, returns (p x)) ->
  filterM p xs =
    Ok (List.filter (fun x => match p x with Ok b => b | Throw _ => false end) xs).
Proof.
  intros Hp. induction xs as [|x t IH]; simpl; [done|].
  destruct (Hp x) as [b Hb]. rewrite Hb, IH. simpl. by destruct b.
Qed.

Lemma hasType_total (ind : value) : returns (hasType ind).
Proof.
  unfold hasType. destruct ind as [|b|n|s|xs|ms]; simpl;
    try apply returns_Ok.
  - destruct b; apply returns_Ok.
  - destruct (negb (isZero n)); apply returns_Ok.
  - destruct s; apply returns_Ok.
  - destruct (lookupMember (u "type") ms) as [[]|]; apply returns_Ok.
Qed.

Lemma categories_total (xs : list value) :
  returns (mapM (fun cat => callString (Some cat) trim)
             (List.filter isStringValue xs)).
Proof.
  apply mapM_returns. apply Forall_forall. intros x [_ Hx]%filter_In.
  destruct x; try done. apply returns_Ok.
Qed.

Lemma normalizeCategories_total (ms : list (jsstring * value)) :
  returns (normalizeCategories (JObject ms)).
Proof.
  unfold normalizeCategories. simpl.
  destruct (truthy _); [|apply returns_Ok].
  destruct (lookupMember _ ms) as [[| | | |xs|]|]; try apply returns_Ok.
  apply returns_bind. destruct (categories_total xs) as [ys Hys].
  exists ys. split; [done|apply returns_Ok].
Qed.

Lemma normalizeReasoning_total (ms : list (jsstring * value)) :
  returns (normalizeReasoning (JObject ms)).
Proof.
  unfold normalizeReasoning. simpl.
  destruct (lookupMember _ ms) as [[| | |s| |]|]; try apply returns_Ok.
  destruct (_ <? _)%Z; apply returns_Ok.
Qed.

Lemma normalizeConfidence_returns (ms : list (jsstring * value)) :
  returns (normalizeConfidence (JObject ms)) <->
  confidenceUsable (JObject ms) = true.
Proof.
  unfold normalizeConfidence, confidenceUsable. simpl.
  destruct (lookupMember _ ms) as [[|b|n|s|xs|ms']|]; simpl;
    try (split; [done|intros _; apply returns_Ok]).
  - destruct b; simpl; split; try done.
    + by intros ?%returns_Throw.
    + intros _. apply returns_Ok.
  - destruct (isZero n); simpl; split; try done.
    + intros _. apply returns_Ok.
    + by intros ?%returns_Throw.
  - rewrite orb_true_r. split; [done|]. intros _.
    destruct s; [apply returns_Ok|]. simpl.
    repeat (destruct (bool_decide _); [apply returns_Ok|]). apply returns_Ok.
  - split; [by intros ?%returns_Throw|done].
  - split; [by intros ?%returns_Throw|done].
Qed.

Lemma optCallString_returns {A} (v : option value) (m : jsstring -> A) :
  returns (optCallString v m) <-> stringOrNullish v = true.
Proof.
  destruct v as [[| | | | |]|]; simpl; split; try done;
    try (intros _; apply returns_Ok); by intros ?%returns_Throw.
Qed.

Lemma normalizeIndicator_returns (ind : value) :
  hasType ind = Ok true ->
  returns (normalizeIndicator ind) <->
  fieldUsable ind (u "snippet") && fieldUsable ind (u "explanation") = true.
Proof.
  unfold hasType, normalizeIndicator, fieldUsable.
  destruct ind as [|b|n|s|xs|ms]; simpl; try done.
  - destruct b; done.
  - destruct (negb (isZero n)); done.
  - destruct s; done.
  - destruct (lookupMember (u "type") ms) as [[| | |ty| |]|]; try done.
    intros _. simpl. rewrite andb_true_iff.
    split.
    + intros (sn & Hsn & H)%returns_bind. apply returns_bind in H as (ex & Hex & _).
      split; apply (optCallString_returns _ trim); by eexists.
    + intros [[sn Hsn]%(optCallString_returns _ trim)
                [ex Hex]%(optCallString_returns _ trim)].
      rewrite Hsn, Hex. apply returns_Ok.
Qed.

Lemma normalizeIndicators_returns (ms : list (jsstring * value)) :
  returns (normalizeIndicators (JObject ms)) <->
  indicatorsUsable (JObject ms) = true.
Proof.
  unfold normalizeIndicators, indicatorsUsable. simpl.
  destruct (lookupMember _ ms) as [[|b|n|s|xs|ms']|]; simpl;
    try (split; [done|intros _; apply returns_Ok]).
  - destruct b; (split; [done|intros _; apply returns_Ok]).
  - destruct (negb (isZero n)); (split; [done|intros _; apply returns_Ok]).
  - destruct s; (split; [done|intros _; apply returns_Ok]).
  - rewrite (filterM_total hasType xs hasType_total). simpl.
    rewrite mapM_returns, forallb_forall, Forall_forall.
    split.
    + intros H ind Hin. unfold indicatorUsable.
      destruct (hasType ind) as [[|]|] eqn:E; try done.
      apply normalizeIndicator_returns; [done|]. apply H.
      apply filter_In. split; [done|]. by rewrite E.
    + intros H ind [Hin Hkeep]%filter_In.
      destruct (hasType ind) as [[|]|] eqn:E; try done.
      apply normalizeIndicator_returns; [done|].
      specialize (H ind Hin). unfold indicatorUsable in H. by rewrite E in H.
Qed.

(** What it takes for the normalizer to return. *)
Lemma normalizeParsed_returns (parsed : value) :
  returns (normalizeParsed parsed) <->
  hasBooleanFlag parsed && confidenceUsable parsed && indicatorsUsable parsed = true.
Proof.
  unfold normalizeParsed, hasBooleanFlag.
  destruct parsed as [|b|n|s|xs|ms]; simpl;
    try (split; [by intros ?%returns_Throw|done]).
  destruct (lookupMember (u "aiFlag") ms) as [[|flag| | | |]|]; simpl;
    try (split; [by intros ?%returns_Throw|done]).
  rewrite andb_true_iff, <- normalizeConfidence_returns,
    <- normalizeIndicators_returns.
  split.
  - intros (c & Hc & H)%returns_bind.
    apply returns_bind in H as (cats & Hcats & H).
    apply returns_bind in H as (inds & Hinds & _).
    split; by eexists.
  - intros [[c Hc] [inds Hinds]].
    destruct (normalizeCategories_total ms) as [cats Hcats].
    destruct (normalizeReasoning_total ms) as [why Hwhy].
    rewrite Hc, Hcats, Hinds, Hwhy. apply returns_Ok.
Qed.

Lemma parseDetectionResult_returns (responseContent : jsstring) :
  returns (parseDetectionResult responseContent) <->
  exists parsed,
    JSON_parse responseContent = Some parsed /\
    hasBooleanFlag parsed = true /\
    confidenceUsable parsed = true /\
    indicatorsUsable parsed = true.
Proof.
  unfold parseDetectionResult.
  destruct (JSON_parse responseContent) as [parsed|].
  - rewrite normalizeParsed_returns, !andb_true_iff. split.
    + intros [[H1 H2] H3]. by exists parsed.
    + by intros (? & [= <-] & H1 & H2 & H3).
  - split; [by intros ?%returns_Throw|]. by intros (? & H & _).
Qed.

(** The two conditions that the claim names are fatal. *)
Lemma parseDetectionResult_fatal (responseContent : jsstring) :
  (JSON_parse responseContent = None ->
     parseDetectionResult responseContent = Throw JsonParseFailure) /\
  (forall parsed,
     JSON_parse responseContent = Some parsed ->
     hasBooleanFlag parsed = false ->
     parseDetectionResult responseContent =
       Throw (match parsed with JNull => TypeError | _ => InvalidAiFlag end)).
Proof.
  unfold parseDetectionResult, hasBooleanFlag, normalizeParsed. split.
  - by intros ->.
  - intros parsed -> H. destruct parsed as [|b|n|s|xs|ms]; simpl in *; try done.
    by destruct (lookupMember (u "aiFlag") ms) as [[| | | | |]|].
Qed.

(** Claim C1 fails on a reply whose [confidence] is the number 5: the
    text parses and [aiFlag] is a boolean, but the truthy number has no
    [toLowerCase] and the call throws a [TypeError] where the claim says
    the default is substituted.  A number as the [snippet] of a kept
    indicator does the same. *)
Theorem parseDetectionResult_throws_on_numeric_confidence :
  JSON_parse numericConfidenceReply =
    Some (JObject [ (u "aiFlag", JBool true);
                    (u "confidence",
                     JNumber {| negative := false; mantissa := 5; exponent := 0 |}) ]) /\
  parseDetectionResult numericConfidenceReply = Throw TypeError /\
  parseDetectionResult numericSnippetReply = Throw TypeError.
Proof. repeat split; vm_compute; reflexivity. Qed.

End Normalizer.

(** * Further properties of the library and of the handler *)

(** ** The sanitizer's helpers *)

Section SanitizerMore.

Lemma isPlain_spec (c : N) :
  isPlain c = true -> isControlChar c = false /\ c <> 13%N.
Proof.
  unfold isPlain. intros [H1 H2]%andb_true_iff.
  apply negb_true_iff in H1. apply negb_true_iff in H2.
  split; [done|]. by apply N.eqb_neq.
Qed.

Lemma sanitizedText_plain (maxLength : Z) (text : jsstring) :
  Forall (fun c => isControlChar c = false /\ c <> 13%N)
    (sanitizedText (sanitizeInput maxLength text)).
Proof.
  destruct (sanitizeInput_fields maxLength text) as (-> & _).
  pose proof (cleanup_plain text) as Hp.
  eapply Forall_impl; [|destruct (_ >? _); [apply Forall_take, Hp|apply Hp]].
  apply isPlain_spec.
Qed.

Lemma sanitizedText_length (maxLength : Z) (text : jsstring) :
  0 <= maxLength ->
  len (sanitizedText (sanitizeInput maxLength text)) <= maxLength.
Proof.
  intros Hmax. destruct (sanitizeInput_fields maxLength text) as (-> & _).
  unfold len. destruct (_ >? _) eqn:E; [rewrite length_take|]; lia.
Qed.

Lemma validateText_valid (text : jsstring) :
  isValid (validateText text) = true <-> MIN_LENGTH <= len (trim text).
Proof.
  unfold validateText, MIN_LENGTH. destruct text as [|c t].
  - simpl. split; [done|]. vm_compute. intros H. by destruct H.
  - destruct (len (trim (c :: t)) =? 0) eqn:E0; simpl.
    + split; [done|]. lia.
    + destruct (len (trim (c :: t)) <? 10) eqn:E1; simpl; split; try done; lia.
Qed.

Lemma tripleFree_no_triple (s : jsstring) :
  tripleFree 0 s = true -> forall p r, s <> p ++ [10%N; 10%N; 10%N] ++ r.
Proof.
  intros H p r ->. apply tripleFree_app_r in H. simpl in H. discriminate.
Qed.

(** Whatever the input and the limit, the text that [sanitizeInput] returns
    holds none of the stripped control characters and no carriage return,
    never has three line feeds in a row, does not start with whitespace, and
    does not end with whitespace unless it was truncated. *)
Theorem sanitizeInput_output_clean (maxLength : Z) (text : jsstring) :
  let r := sanitizeInput maxLength text in
  Forall (fun c => isControlChar c = false /\ c <> 13%N) (sanitizedText r) /\
  (forall p rest, sanitizedText r <> p ++ [10%N; 10%N; 10%N] ++ rest) /\
  startsWithWhiteSpace (sanitizedText r) = false /\
  (wasTruncated r = false -> endsWithWhiteSpace (sanitizedText r) = false).
Proof.
  intros r. split; [apply sanitizedText_plain|].
  destruct (sanitizeInput_fields maxLength text) as (Ht & Hw & _).
  fold r in Ht, Hw. rewrite Ht, Hw.
  pose proof (cleanup_tripleFree text) as H3.
  assert (Hs : startsWithWhiteSpace (cleanup text) = false) by apply trim_starts.
  assert (He : endsWithWhiteSpace (cleanup text) = false) by apply trim_ends.
  destruct (len (cleanup text) >? maxLength).
  - split; [|split].
    + by apply tripleFree_no_triple, tripleFree_take.
    + by apply startsWithWhiteSpace_take.
    + done.
  - split; [|split].
    + by apply tripleFree_no_triple.
    + done.
    + done.
Qed.

(** The counts of a result fit together: the final length is the length of
    the returned text, at most the configured limit and at most the
    original length; the number of removed characters is between 0 and the
    original length; and without truncation the final length is the
    original length minus the removed characters. *)
Theorem sanitizeInput_counts (maxLength : Z) (text : jsstring) :
  0 <= maxLength ->
  let r := sanitizeInput maxLength text in
  finalLength r = len (sanitizedText r) /\
  finalLength r <= maxLength /\
  finalLength r <= originalLength r /\
  0 <= removedCharacters r <= originalLength r /\
  finalLength r <= originalLength r - removedCharacters r /\
  (wasTruncated r = false ->
   finalLength r = originalLength r - removedCharacters r).
Proof.
  intros Hmax r.
  destruct (sanitizeInput_fields maxLength text) as (Ht & Hw & Ho & Hf & Hr).
  fold r in Ht, Hw, Ho, Hf, Hr.
  pose proof (cleanup_length text) as Hlen.
  rewrite Hf, Hw, Ho, Hr, Ht. unfold len in *.
  destruct (Z.of_nat (List.length (cleanup text)) >? maxLength) eqn:E.
  - rewrite length_take. repeat split; (lia || done).
  - repeat split; (lia || done).
Qed.

Lemma sanitizeInput_counts_witness :
  0 <= 5 /\
  let r := sanitizeInput 5 (u "  abcd efg  ") in
  finalLength r = len (sanitizedText r) /\
  finalLength r <= 5 /\
  finalLength r <= originalLength r /\
  0 <= removedCharacters r <= originalLength r /\
  finalLength r <= originalLength r - removedCharacters r /\
  (wasTruncated r = false ->
   finalLength r = originalLength r - removedCharacters r).
Proof.
  assert (H : 0 <= 5) by lia.
  split; [exact H|].
  exact (sanitizeInput_counts 5 (u "  abcd efg  ") H).
Defined.

(** *** A visible character survives *)

Lemma trimStart_In c s :
  isWhiteSpace c = false -> In c s -> In c (trimStart s).
Proof.
  intros Hc. induction s as [|d t IH]; simpl; [done|].
  destruct (isWhiteSpace d) eqn:E; [|done].
  intros [->|H]; [congruence|auto].
Qed.

Lemma trim_In c s : isWhiteSpace c = false -> In c s -> In c (trim s).
Proof.
  intros Hc H. unfold trim, trimEnd.
  apply in_rev. rewrite rev_involutive.
  apply trimStart_In; [done|]. apply in_rev. rewrite rev_involutive.
  by apply trimStart_In.
Qed.

Lemma replaceCRLF_In c s : c <> 13%N -> In c s -> In c (replaceCRLF s).
Proof.
  intros Hc.
  enough (H : (In c s -> In c (replaceCRLF s)) /\
              forall d, In c (d :: s) -> In c (replaceCRLF (d :: s)))
    by apply H.
  induction s as [|e t [IH1 IH2]]; [split; [done|intros d H; exact H]|].
  split; [apply IH2|]. intros d Hin.
  change (replaceCRLF (d :: e :: t)) with
    (if ((d =? 13) && (e =? 10))%N then 10%N :: replaceCRLF t
     else d :: replaceCRLF (e :: t)).
  destruct ((d =? 13) && (e =? 10))%N eqn:E.
  - apply andb_true_iff in E as [Ed Ee].
    apply N.eqb_eq in Ed. apply N.eqb_eq in Ee. subst d e.
    destruct Hin as [<-|[<-|H]]; [done|by left|right; auto].
  - destruct Hin as [<-|H]; [by left|right; auto].
Qed.

Lemma collapseFrom_In c run s :
  c <> 10%N -> In c s -> In c (collapseFrom run s).
Proof.
  intros Hc. revert run. induction s as [|d t IH]; intros run; simpl; [done|].
  intros [->|H].
  - apply N.eqb_neq in Hc. rewrite Hc. by left.
  - destruct (d =? 10)%N; [destruct (run <? 2)%nat|]; simpl; auto.
Qed.

Lemma isWhiteSpace_10 : isWhiteSpace 10 = true. Proof. reflexivity. Qed.
Lemma isWhiteSpace_13 : isWhiteSpace 13 = true. Proof. reflexivity. Qed.

Lemma cleanup_In c text :
  isVisible c = true -> In c text -> In c (cleanup text).
Proof.
  unfold isVisible. intros [Hw Hc]%andb_true_iff Hin.
  apply negb_true_iff in Hw. apply negb_true_iff in Hc.
  assert (c <> 10%N) by (intros ->; by rewrite isWhiteSpace_10 in Hw).
  assert (c <> 13%N) by (intros ->; by rewrite isWhiteSpace_13 in Hw).
  unfold cleanup, collapseNewlines, replaceCR.
  apply trim_In; [done|]. apply collapseFrom_In; [done|].
  apply in_map_iff. exists c. split.
  { by replace (c =? 13)%N with false by (symmetry; by apply N.eqb_neq). }
  apply replaceCRLF_In; [done|].
  apply filter_In. split; [|by rewrite Hc].
  by apply trim_In.
Qed.

(** A text that holds at least one character that is neither whitespace
    nor a stripped control character never sanitizes to the empty text
    (for a limit of at least one character). *)
Theorem sanitizeInput_keeps_visible_text (maxLength : Z) (text : jsstring) (c : N) :
  1 <= maxLength ->
  In c text ->
  isVisible c = true ->
  sanitizedText (sanitizeInput maxLength text) <> [].
Proof.
  intros Hmax Hin Hvis.
  destruct (sanitizeInput_fields maxLength text) as (-> & _).
  pose proof (cleanup_In c text Hvis Hin) as Hc.
  destruct (cleanup text) as [|d t] eqn:E; [done|].
  destruct (_ >? _); [|done].
  replace (Z.to_nat maxLength) with (S (Z.to_nat (maxLength - 1))) by lia.
  done.
Qed.

Lemma sanitizeInput_keeps_visible_text_witness :
  (1 <= 5000 /\ In 72%N (u "  Hello  ") /\ isVisible 72 = true) /\
  sanitizedText (sanitizeInput 5000 (u "  Hello  ")) <> [].
Proof.
  assert (H : 1 <= 5000 /\ In 72%N (u "  Hello  ") /\ isVisible 72 = true).
  { split; [lia|]. split; [simpl; tauto|reflexivity]. }
  split; [exact H|].
  destruct H as (H1 & H2 & H3).
  exact (sanitizeInput_keeps_visible_text 5000 (u "  Hello  ") 72 H1 H2 H3).
Defined.

(** *** Validation and sanitization *)

(** [validateText] looks at the raw text, before the control characters
    are stripped: a text of ten or more stripped control characters that
    are not whitespace is accepted as valid and sanitizes to the empty
    text. *)
Theorem validateText_accepts_control_only (maxLength : Z) (text : jsstring) :
  10 <= len text ->
  Forall (fun c => isControlChar c = true /\ isWhiteSpace c = false) text ->
  isValid (validateText text) = true /\
  sanitizedText (sanitizeInput maxLength text) = [] /\
  removedCharacters (sanitizeInput maxLength text) = len text.
Proof.
  intros Hlen Hall.
  assert (Htrim : trim text = text).
  { apply trim_fixed.
    - destruct Hall as [|c t [_ Hc] _]; [done|]. exact Hc.
    - unfold endsWithWhiteSpace. apply Forall_rev in Hall.
      destruct Hall as [|c t [_ Hc] _]; [done|]. exact Hc. }
  assert (Hclean : cleanup text = []).
  { unfold cleanup. rewrite Htrim.
    replace (removeControlChars text) with (@nil N); [done|].
    symmetry. clear Hlen Htrim.
    induction Hall as [|c t [Hc _] _ IH]; [done|]. simpl. by rewrite Hc. }
  split; [|split].
  - apply validateText_valid. rewrite Htrim. unfold MIN_LENGTH. lia.
  - destruct (sanitizeInput_fields maxLength text) as (-> & _).
    rewrite Hclean. destruct (_ >? _); [apply firstn_nil|done].
  - destruct (sanitizeInput_fields maxLength text) as (_ & _ & _ & _ & ->).
    rewrite Hclean. unfold len. simpl. lia.
Qed.

Lemma validateText_accepts_control_only_witness :
  (10 <= len (List.repeat 1%N 10) /\
   Forall (fun c => isControlChar c = true /\ isWhiteSpace c = false)
     (List.repeat 1%N 10)) /\
  isValid (validateText (List.repeat 1%N 10)) = true /\
  sanitizedText (sanitizeInput 5000 (List.repeat 1%N 10)) = [] /\
  removedCharacters (sanitizeInput 5000 (List.repeat 1%N 10)) =
    len (List.repeat 1%N 10).
Proof.
  assert (H : 10 <= len (List.repeat 1%N 10) /\
   Forall (fun c => isControlChar c = true /\ isWhiteSpace c = false)
     (List.repeat 1%N 10)).
  { split; [unfold len; simpl; lia|]. repeat (constructor; [by split|]). constructor. }
  split; [exact H|].
  destruct H as (H1 & H2).
  exact (validateText_accepts_control_only 5000 (List.repeat 1%N 10) H1 H2).
Defined.

(** *** Counting control characters *)

Lemma filter_split_length {A} (p : A -> bool) (xs : list A) :
  (List.length (List.filter p xs)
   + List.length (List.filter (fun x => negb (p x)) xs))%nat = List.length xs.
Proof.
  induction xs as [|x t IH]; simpl; [done|].
  destruct (p x); simpl; lia.
Qed.

Lemma countControlCharacters_length (text : jsstring) :
  countControlCharacters text =
    Z.of_nat (List.length (List.filter isControlChar text)).
Proof. unfold countControlCharacters. by destruct (List.filter _ _). Qed.

(** [countControlCharacters] counts exactly what the sanitizer's
    control-character step removes, and finds nothing left in a sanitized
    text. *)
Theorem countControlCharacters_removed (maxLength : Z) (text : jsstring) :
  len (removeControlChars text) = len text - countControlCharacters text /\
  0 <= countControlCharacters text <= len text /\
  countControlCharacters (sanitizedText (sanitizeInput maxLength text)) = 0.
Proof.
  rewrite !countControlCharacters_length.
  pose proof (filter_split_length isControlChar text) as H.
  unfold removeControlChars, len. split; [lia|]. split; [lia|].
  pose proof (sanitizedText_plain maxLength text) as Hc.
  induction Hc as [|c t [Hc _] _ IH]; [done|].
  simpl. by rewrite Hc.
Qed.

(** *** The log preview *)

Lemma collapseWhiteSpace_spaces inRun s :
  Forall (fun c => isWhiteSpace c = true -> c = 32%N) (collapseWhiteSpace inRun s).
Proof.
  revert inRun. induction s as [|c t IH]; intros inRun; simpl; [constructor|].
  destruct (isWhiteSpace c) eqn:E.
  - destruct inRun; [apply IH|]. constructor; [done|apply IH].
  - constructor; [congruence|apply IH].
Qed.

Lemma collapseWhiteSpace_length inRun s :
  (List.length (collapseWhiteSpace inRun s) <= List.length s)%nat.
Proof.
  revert inRun. induction s as [|c t IH]; intros inRun; simpl; [done|].
  destruct (isWhiteSpace c); [destruct inRun|]; simpl.
  - specialize (IH true). lia.
  - specialize (IH true). lia.
  - specialize (IH false). lia.
Qed.

(** A preview holds no line break, tab or other whitespace except single
    plain spaces, does not start with a space, is never longer than the
    limit plus the three dots, and never longer than the text plus three. *)
Theorem createSafePreview_safe (text : jsstring) (maxLength : Z) :
  0 <= maxLength ->
  let preview := createSafePreview text maxLength in
  Forall (fun c => isWhiteSpace c = true -> c = 32%N) preview /\
  startsWithWhiteSpace preview = false /\
  len preview <= maxLength + 3 /\
  len preview <= len text + 3.
Proof.
  intros Hmax preview. subst preview. unfold createSafePreview.
  set (flat := List.map (fun c => if (c =? 10)%N then 32%N else c) text).
  set (p := trim (collapseWhiteSpace false flat)).
  assert (Hsp : Forall (fun c => isWhiteSpace c = true -> c = 32%N) p)
    by apply trim_Forall, collapseWhiteSpace_spaces.
  assert (Hst : startsWithWhiteSpace p = false) by apply trim_starts.
  assert (Hlen : len p <= len text).
  { unfold len, p. pose proof (trim_length (collapseWhiteSpace false flat)).
    pose proof (collapseWhiteSpace_length false flat).
    unfold flat in *. rewrite length_map in *. lia. }
  destruct (len p >? maxLength) eqn:E.
  - apply Z.gtb_lt in E. rewrite substring_from_0. split; [|split; [|split]].
    + apply Forall_app. split; [by apply Forall_take|].
      repeat constructor; discriminate.
    + destruct p as [|c t]; [unfold len in E; simpl in E; lia|].
      destruct (Z.to_nat maxLength); simpl; done.
    + unfold len in *. rewrite length_app, length_take. simpl. lia.
    + unfold len in *. rewrite length_app, length_take. simpl. lia.
  - repeat split; try done; lia.
Qed.

Lemma createSafePreview_safe_witness :
  0 <= 50 /\
  let preview := createSafePreview ([72; 105; 10; 10; 9] ++ u "there")%N 50 in
  Forall (fun c => isWhiteSpace c = true -> c = 32%N) preview /\
  startsWithWhiteSpace preview = false /\
  len preview <= 50 + 3 /\
  len preview <= len ([72; 105; 10; 10; 9] ++ u "there")%N + 3.
Proof.
  assert (H : 0 <= 50) by lia.
  split; [exact H|].
  exact (createSafePreview_safe ([72; 105; 10; 10; 9] ++ u "there")%N 50 H).
Defined.

End SanitizerMore.

(** ** Statistics, sweep, reset and windows of the rate limiter *)

Section RateLimitMore.

Lemma filter_none {A} (p : A -> bool) (xs : list A) :
  (forall x, In x xs -> p x = false) -> List.filter p xs = [].
Proof.
  induction xs as [|x t IH]; simpl; [done|]. intros H.
  rewrite (H x) by by left. apply IH. intros y Hy. apply H. by right.
Qed.

(** *** Statistics and the sweep *)

(** [getRateLimitStats] splits the tracked identifiers into those with an
    active window and those with an expired one, and changes nothing. *)
Theorem getRateLimitStats_partition (cfg : Config) (now : Z) (st : Store) :
  let '(stats, st') := getRateLimitStats cfg now st in
  totalIPs stats = activeWindows stats + expiredWindows stats /\
  0 <= activeWindows stats /\ 0 <= expiredWindows stats /\
  (st = ∅ -> totalIPs stats = 0) /\
  st' = st.
Proof.
  unfold getRateLimitStats. simpl.
  pose proof (filter_split_length
                (fun kv : jsstring * RateLimitEntry => isExpired cfg now (snd kv))
                (map_to_list st)) as H.
  rewrite length_map_to_list in H.
  repeat split; try lia. intros ->. by rewrite map_size_empty.
Qed.

Lemma sweep_count (ips : list jsstring) (n : Z) (st : Store) :
  fst (sweep ips (n, st)) = n + Z.of_nat (List.length ips).
Proof.
  revert n st. induction ips as [|ip ips IH]; intros n st; [simpl; lia|].
  change (sweep (ip :: ips) (n, st)) with (sweep ips (n + 1, delete ip st)).
  rewrite IH. simpl. lia.
Qed.

Lemma sweep_lookup (ips : list jsstring) (n : Z) (st : Store) (k : jsstring) :
  snd (sweep ips (n, st)) !! k = if decide (k ∈ ips) then None else st !! k.
Proof.
  revert n st. induction ips as [|ip ips IH]; intros n st.
  - simpl. destruct (decide (k ∈ [])) as [H|H]; [set_solver|done].
  - change (sweep (ip :: ips) (n, st)) with (sweep ips (n + 1, delete ip st)).
    rewrite IH.
    destruct (decide (k ∈ ips)) as [Hin|Hnin].
    + destruct (decide (k ∈ ip :: ips)) as [_|Hnin']; [done|].
      exfalso. apply Hnin'. by right.
    + destruct (decide (k ∈ ip :: ips)) as [Hin'|Hnin'].
      * apply elem_of_cons in Hin' as [->|Hin']; [|done].
        apply lookup_delete_eq.
      * apply lookup_delete_ne. intros ->. apply Hnin'. by left.
Qed.

Lemma sweep_size (ips : list jsstring) (n : Z) (st : Store) :
  NoDup ips -> (forall ip, ip ∈ ips -> is_Some (st !! ip)) ->
  (size (snd (sweep ips (n, st))) + List.length ips)%nat = size st.
Proof.
  revert n st. induction ips as [|ip ips IH]; intros n st Hnd Hin; [simpl; lia|].
  inversion Hnd as [|? ? Hnotin Hnd']; subst.
  rewrite <- list_elem_of_In in Hnotin.
  change (sweep (ip :: ips) (n, st)) with (sweep ips (n + 1, delete ip st)).
  specialize (IH (n + 1) (delete ip st) Hnd').
  destruct (Hin ip) as [e He]; [set_solver|].
  pose proof (map_size_delete_Some ip st (ex_intro _ e He)) as Hd.
  assert (size st <> 0%nat) by (apply map_size_non_empty_iff; by intros ->).
  assert (Hrest : forall ip0 : jsstring,
             ip0 ∈ ips -> is_Some (delete ip st !! ip0)).
  { intros ip' Hip'. rewrite lookup_delete_ne by set_solver.
    apply Hin. set_solver. }
  specialize (IH Hrest). simpl List.length. lia.
Qed.

Lemma expiredKeys_elem (cfg : Config) (now : Z) (st : Store) (k : jsstring) :
  k ∈ expiredKeys cfg now st <->
  exists e, st !! k = Some e /\ isExpired cfg now e = true.
Proof.
  unfold expiredKeys. rewrite list_elem_of_In, in_map_iff. split.
  - intros ([k' e] & <- & [Hin He]%filter_In). exists e. split; [|done].
    apply elem_of_map_to_list. by apply list_elem_of_In.
  - intros (e & Hk & He). exists (k, e). split; [done|].
    apply filter_In. split; [|done].
    apply list_elem_of_In. by apply elem_of_map_to_list.
Qed.

Lemma expiredKeys_NoDup (cfg : Config) (now : Z) (st : Store) : NoDup (expiredKeys cfg now st).
Proof.
  unfold expiredKeys.
  pose proof (NoDup_fst_map_to_list st) as H.
  induction (map_to_list st) as [|[k e] l IH]; simpl in *; [constructor|].
  inversion H as [|? ? Hk Hl]; subst.
  destruct (isExpired cfg now e); simpl; [|by apply IH].
  constructor; [|by apply IH].
  intros Hin. apply Hk.
  apply in_map_iff in Hin as ([k' e'] & <- & [Hin _]%filter_In).
  apply list_elem_of_fmap. exists (k', e'). split; [done|].
  by apply list_elem_of_In.
Qed.

Lemma cleanupExpiredEntries_lookup (cfg : Config) (now : Z) (st : Store) (k : jsstring) :
  snd (cleanupExpiredEntries cfg now st) !! k =
    match st !! k with
    | Some e => if isExpired cfg now e then None else Some e
    | None => None
    end.
Proof.
  unfold cleanupExpiredEntries. fold (expiredKeys cfg now st).
  fold (sweep (expiredKeys cfg now st) (0, st)). rewrite sweep_lookup.
  destruct (decide (k ∈ expiredKeys cfg now st)) as [Hin|Hnin].
  - apply expiredKeys_elem in Hin as (e & -> & ->). done.
  - destruct (st !! k) as [e|] eqn:E; [|done].
    destruct (isExpired cfg now e) eqn:Ee; [|done].
    exfalso. apply Hnin, expiredKeys_elem. eauto.
Qed.

(** The sweep removes exactly the entries whose window has expired at
    [now] and leaves every other entry as it is; the number it returns is
    the number of expired windows that the statistics report, and the
    number of tracked identifiers drops by that much, so that a second
    look finds no expired window. *)
Theorem cleanupExpiredEntries_removes_expired (cfg : Config) (now : Z) (st : Store) :
  let '(removed, st') := cleanupExpiredEntries cfg now st in
  (forall k : jsstring,
      st' !! k = match st !! k with
                 | Some e => if isExpired cfg now e then None else Some e
                 | None => None
                 end) /\
  removed = expiredWindows (fst (getRateLimitStats cfg now st)) /\
  totalIPs (fst (getRateLimitStats cfg now st')) =
    totalIPs (fst (getRateLimitStats cfg now st)) - removed /\
  expiredWindows (fst (getRateLimitStats cfg now st')) = 0.
Proof.
  pose proof (cleanupExpiredEntries_lookup cfg now st) as Hlook.
  destruct (cleanupExpiredEntries cfg now st) as [removed st'] eqn:E.
  simpl in Hlook.
  assert (Hrem : removed = Z.of_nat (List.length (expiredKeys cfg now st))).
  { replace removed with (fst (cleanupExpiredEntries cfg now st)) by by rewrite E.
    unfold cleanupExpiredEntries. fold (expiredKeys cfg now st).
    fold (sweep (expiredKeys cfg now st) (0, st)). rewrite sweep_count. lia. }
  assert (Hsize : (size st' + List.length (expiredKeys cfg now st))%nat = size st).
  { replace st' with (snd (cleanupExpiredEntries cfg now st)) by by rewrite E.
    unfold cleanupExpiredEntries. fold (expiredKeys cfg now st).
    fold (sweep (expiredKeys cfg now st) (0, st)).
    apply sweep_size; [apply expiredKeys_NoDup|].
    intros ip (e & He & _)%expiredKeys_elem. eauto. }
  split; [exact Hlook|]. split; [|split].
  - rewrite Hrem. unfold getRateLimitStats, expiredKeys. simpl.
    by rewrite length_map.
  - unfold getRateLimitStats. simpl. lia.
  - unfold getRateLimitStats. simpl.
    rewrite filter_none; [done|].
    intros [k e] Hin. simpl.
    apply list_elem_of_In, elem_of_map_to_list in Hin.
    rewrite Hlook in Hin. destruct (st !! k) as [e0|]; [|done].
    destruct (isExpired cfg now e0) eqn:Ee; [done|]. by injection Hin as <-.
Qed.

(** A sweep at [now] changes no later decision: at any clock reading from
    [now] on, [checkRateLimit] and [getRateLimitStatus] answer the same on
    the swept store as on the store that was not swept. *)
Theorem cleanupExpiredEntries_transparent (cfg : Config) (now now' : Z) (ip : jsstring)
    (st : Store) :
  now <= now' ->
  let st' := snd (cleanupExpiredEntries cfg now st) in
  fst (checkRateLimit cfg now' ip st') = fst (checkRateLimit cfg now' ip st) /\
  snd (checkRateLimit cfg now' ip st') !! ip =
    snd (checkRateLimit cfg now' ip st) !! ip /\
  fst (getRateLimitStatus cfg now' ip st') =
    fst (getRateLimitStatus cfg now' ip st).
Proof.
  intros Hle st'.
  pose proof (cleanupExpiredEntries_lookup cfg now st ip) as Hlook. fold st' in Hlook.
  assert (Hc : currentCount cfg now' (st' !! ip) = currentCount cfg now' (st !! ip) /\
               currentWindowStart cfg now' (st' !! ip)
                 = currentWindowStart cfg now' (st !! ip)).
  { rewrite Hlook. destruct (st !! ip) as [e|]; [|done].
    destruct (isExpired cfg now e) eqn:E; [|done]. simpl.
    unfold isExpired in *.
    replace (now' - windowStart e >=? windowDuration cfg) with true
      by (symmetry; lia).
    done. }
  destruct Hc as [Hc Hw].
  rewrite !checkRateLimit_spec. simpl. rewrite Hc, Hw, !lookup_insert_eq.
  split; [done|]. split; [done|].
  unfold getRateLimitStatus. rewrite Hlook.
  destruct (st !! ip) as [e|]; [|done].
  destruct (isExpired cfg now e) eqn:E; [|by destruct (_ >=? _)].
  unfold isExpired in E.
  replace (now' - windowStart e >=? windowDuration cfg) with true
    by (symmetry; lia).
  done.
Qed.

Lemma cleanupExpiredEntries_transparent_witness :
  let cfg0 := {| maxRequests := 2; windowMinutes := 1 |} in
  let ip := u "203.0.113.7" in
  let st : Store := {[ ip := {| count := 2; windowStart := 0 |} ]} in
  60000 <= 61000 /\
  let st' := snd (cleanupExpiredEntries cfg0 60000 st) in
  fst (checkRateLimit cfg0 61000 ip st') = fst (checkRateLimit cfg0 61000 ip st).
Proof.
  intros cfg0 ip st.
  assert (H : 60000 <= 61000) by lia.
  split; [exact H|].
  exact (proj1 (cleanupExpiredEntries_transparent cfg0 60000 61000 ip st H)).
Defined.

(** [resetRateLimit] reports whether the identifier was tracked, forgets
    it and touches no other identifier; afterwards the identifier has its
    full quota again, and (for [maxRequests >= 1]) its next request is
    allowed with [maxRequests - 1] remaining. *)
Theorem resetRateLimit_restores_quota (cfg : Config) (now : Z) (ip : jsstring)
    (st : Store) :
  let '(existed, st') := resetRateLimit ip st in
  (existed = true <-> is_Some (st !! ip)) /\
  st' !! ip = None /\
  (forall ip' : jsstring, ip' <> ip -> st' !! ip' = st !! ip') /\
  fst (getRateLimitStatus cfg now ip st') = fullQuota cfg now /\
  (1 <= maxRequests cfg ->
   allowed (fst (checkRateLimit cfg now ip st')) = true /\
   remaining (fst (checkRateLimit cfg now ip st')) = maxRequests cfg - 1).
Proof.
  unfold resetRateLimit.
  split; [apply bool_decide_eq_true|].
  split; [apply lookup_delete_eq|].
  split; [intros ip' Hne; by apply lookup_delete_ne|].
  split.
  - unfold getRateLimitStatus. by rewrite lookup_delete_eq.
  - intros Hmax. rewrite checkRateLimit_spec. simpl.
    rewrite lookup_delete_eq. simpl.
    replace (0 <? maxRequests cfg) with true by (symmetry; lia).
    split; [done|]. lia.
Qed.

Lemma resetRateLimit_restores_quota_witness :
  let cfg := {| maxRequests := 10; windowMinutes := 60 |} in
  let ip := u "203.0.113.7" in
  let st : Store := {[ ip := {| count := 10; windowStart := 0 |} ]} in
  1 <= maxRequests cfg /\
  (allowed (fst (checkRateLimit cfg 5 ip (snd (resetRateLimit ip st)))) = true /\
   remaining (fst (checkRateLimit cfg 5 ip (snd (resetRateLimit ip st))))
     = maxRequests cfg - 1).
Proof.
  intros cfg ip st.
  assert (H : 1 <= maxRequests cfg) by (simpl; lia).
  split; [exact H|].
  exact (proj2 (proj2 (proj2 (proj2
           (resetRateLimit_restores_quota cfg 5 ip st)))) H).
Defined.

(** For [maxRequests >= 1] a status query predicts the request that
    follows it at the same clock reading: the same [allowed], [resetTime]
    and [retryAfter], and a [remaining] that is one less exactly when the
    request is allowed. *)
Theorem getRateLimitStatus_predicts_check (cfg : Config) (now : Z)
    (ip : jsstring) (st : Store) :
  1 <= maxRequests cfg ->
  let peek := fst (getRateLimitStatus cfg now ip st) in
  let check := fst (checkRateLimit cfg now ip st) in
  allowed check = allowed peek /\
  resetTime check = resetTime peek /\
  retryAfter check = retryAfter peek /\
  remaining check = remaining peek - (if allowed peek then 1 else 0).
Proof.
  intros Hmax. rewrite checkRateLimit_spec. simpl.
  unfold getRateLimitStatus, currentCount, currentWindowStart, isExpired.
  destruct (st !! ip) as [e|]; simpl.
  - destruct (now - windowStart e >=? windowDuration cfg); simpl.
    + replace (0 <? maxRequests cfg) with true by (symmetry; lia).
      repeat split. lia.
    + destruct (count e <? maxRequests cfg) eqn:E; simpl; repeat split; lia.
  - replace (0 <? maxRequests cfg) with true by (symmetry; lia).
    repeat split. lia.
Qed.

Lemma getRateLimitStatus_predicts_check_witness :
  let cfg := {| maxRequests := 10; windowMinutes := 60 |} in
  let ip := u "203.0.113.7" in
  let st : Store := {[ ip := {| count := 10; windowStart := 0 |} ]} in
  1 <= maxRequests cfg /\
  let peek := fst (getRateLimitStatus cfg 5 ip st) in
  let check := fst (checkRateLimit cfg 5 ip st) in
  allowed check = allowed peek /\
  resetTime check = resetTime peek /\
  retryAfter check = retryAfter peek /\
  remaining check = remaining peek - (if allowed peek then 1 else 0).
Proof.
  intros cfg ip st.
  assert (H : 1 <= maxRequests cfg) by (simpl; lia).
  split; [exact H|].
  exact (getRateLimitStatus_predicts_check cfg 5 ip st H).
Defined.

Lemma run_checksAt_other (cfg : Config) (ip ip' : jsstring) (times : list Z)
    (st : Store) :
  ip <> ip' -> snd (run cfg (checksAt ip times) st) !! ip' = st !! ip'.
Proof.
  intros Hne. revert st. induction times as [|t ts IH]; intros st; [done|].
  simpl. pose proof (checkRateLimit_other cfg t ip ip' st Hne) as H.
  destruct (checkRateLimit cfg t ip st) as [r st1]. simpl in H.
  specialize (IH st1). destruct (run cfg (checksAt ip ts) st1) as [os st2].
  simpl in *. congruence.
Qed.

(** The buckets are independent: however many requests one client makes,
    at whatever times, they change neither the entry nor the answer that
    any other client gets. *)
Theorem checkRateLimit_isolated (cfg : Config) (ip ip' : jsstring)
    (times : list Z) (now : Z) (st : Store) :
  ip <> ip' ->
  let st' := snd (run cfg (checksAt ip times) st) in
  st' !! ip' = st !! ip' /\
  fst (checkRateLimit cfg now ip' st') = fst (checkRateLimit cfg now ip' st) /\
  fst (getRateLimitStatus cfg now ip' st') = fst (getRateLimitStatus cfg now ip' st).
Proof.
  intros Hne st'.
  pose proof (run_checksAt_other cfg ip ip' times st Hne) as H. fold st' in H.
  split; [done|]. rewrite !checkRateLimit_spec. simpl. rewrite H.
  split; [done|]. unfold getRateLimitStatus. rewrite H.
  destruct (st !! ip') as [e|]; [|done]. by destruct (_ >=? _).
Qed.

Lemma checkRateLimit_isolated_witness :
  let cfg := {| maxRequests := 2; windowMinutes := 1 |} in
  let ip := u "203.0.113.7" in
  let ip' := u "198.51.100.1" in
  ip <> ip' /\
  let st' := snd (run cfg (checksAt ip [0; 1; 2; 3]) ∅) in
  st' !! ip' = (∅ : Store) !! ip' /\
  fst (checkRateLimit cfg 4 ip' st') = fst (checkRateLimit cfg 4 ip' ∅) /\
  fst (getRateLimitStatus cfg 4 ip' st') = fst (getRateLimitStatus cfg 4 ip' ∅).
Proof.
  intros cfg ip ip'.
  assert (H : ip <> ip') by (vm_compute; discriminate).
  split; [exact H|].
  exact (checkRateLimit_isolated cfg ip ip' [0; 1; 2; 3] 4 ∅ H).
Defined.

(** *** The quota of one window *)

Lemma run_checksAt_window (cfg : Config) (ip : jsstring) (start : Z)
    (times : list Z) (c : Z) (st : Store) :
  st !! ip = Some {| count := c; windowStart := start |} ->
  0 <= c <= maxRequests cfg ->
  Forall (fun t => t - start < windowDuration cfg) times ->
  List.map allowedOf (fst (run cfg (checksAt ip times) st)) =
    List.map Some
      (List.repeat true
         (Nat.min (List.length times) (Z.to_nat (maxRequests cfg - c))) ++
       List.repeat false
         (List.length times - Z.to_nat (maxRequests cfg - c))).
Proof.
  intros Hsome Hc Hall. revert c st Hsome Hc.
  induction Hall as [|t ts Ht Hts IH]; intros c st Hsome Hc; [done|].
  simpl run.
  pose proof (checkRateLimit_spec cfg t ip st) as Hspec. simpl in Hspec.
  rewrite Hsome in Hspec. unfold currentCount, currentWindowStart, isExpired in Hspec.
  simpl in Hspec.
  replace (t - start >=? windowDuration cfg) with false in Hspec by (symmetry; lia).
  rewrite Hspec. clear Hspec.
  destruct (c <? maxRequests cfg) eqn:E;
    [apply Z.ltb_lt in E|apply Z.ltb_ge in E].
  - specialize (IH (c + 1) (<[ip := {| count := c + 1; windowStart := start |}]> st)
                  (lookup_insert_eq _ _ _)).
    destruct (run cfg (checksAt ip ts) _) as [os st2].
    cbn [fst List.map allowedOf allowed] in *.
    rewrite IH by lia.
    replace (Z.to_nat (maxRequests cfg - c))
      with (S (Z.to_nat (maxRequests cfg - (c + 1)))) by lia.
    done.
  - specialize (IH c (<[ip := {| count := c; windowStart := start |}]> st)
                  (lookup_insert_eq _ _ _)).
    destruct (run cfg (checksAt ip ts) _) as [os st2].
    cbn [fst List.map allowedOf allowed] in *.
    rewrite IH by lia.
    replace (Z.to_nat (maxRequests cfg - c)) with 0%nat by lia.
    by rewrite !Nat.min_0_r, !Nat.sub_0_r.
Qed.

(** One window grants exactly [maxRequests] requests: of [n] consecutive
    requests of a new client, all less than one window duration after the
    first, the first [min n maxRequests] are allowed and all later ones
    are blocked. *)
Theorem checkRateLimit_window_quota (cfg : Config) (ip : jsstring)
    (first : Z) (later : list Z) (st : Store) :
  0 <= maxRequests cfg ->
  st !! ip = None ->
  Forall (fun t => t - first < windowDuration cfg) later ->
  let n := S (List.length later) in
  let granted := Nat.min n (Z.to_nat (maxRequests cfg)) in
  List.map allowedOf (fst (run cfg (checksAt ip (first :: later)) st)) =
    List.map Some (List.repeat true granted ++ List.repeat false (n - granted)).
Proof.
  intros Hmax Hnone Hall n granted. subst n granted.
  simpl run.
  pose proof (checkRateLimit_spec cfg first ip st) as Hspec. simpl in Hspec.
  rewrite Hnone in Hspec. simpl in Hspec. rewrite Hspec. clear Hspec.
  destruct (0 <? maxRequests cfg) eqn:E;
    [apply Z.ltb_lt in E|apply Z.ltb_ge in E].
  - pose proof (run_checksAt_window cfg ip first later (0 + 1)
                  (<[ip := {| count := 0 + 1; windowStart := first |}]> st)
                  (lookup_insert_eq _ _ _)) as H.
    destruct (run cfg (checksAt ip later) _) as [os st2].
    cbn [fst List.map allowedOf allowed] in *.
    rewrite H by (lia || done).
    replace (Z.to_nat (maxRequests cfg))
      with (S (Z.to_nat (maxRequests cfg - (0 + 1)))) by lia.
    set (k := Z.to_nat (maxRequests cfg - (0 + 1))).
    replace (S (List.length later) - Nat.min (S (List.length later)) (S k))%nat
      with (List.length later - k)%nat by lia.
    done.
  - pose proof (run_checksAt_window cfg ip first later 0
                  (<[ip := {| count := 0; windowStart := first |}]> st)
                  (lookup_insert_eq _ _ _)) as H.
    destruct (run cfg (checksAt ip later) _) as [os st2].
    cbn [fst List.map allowedOf allowed] in *.
    rewrite H by (lia || done).
    replace (maxRequests cfg) with 0 by lia.
    change (Z.to_nat (0 - 0)) with 0%nat. change (Z.to_nat 0) with 0%nat.
    by rewrite !Nat.min_0_r, !Nat.sub_0_r.
Qed.

Lemma checkRateLimit_window_quota_witness :
  let cfg := {| maxRequests := 2; windowMinutes := 1 |} in
  let ip := u "203.0.113.7" in
  (0 <= maxRequests cfg /\ (∅ : Store) !! ip = None /\
   Forall (fun t => t - 0 < windowDuration cfg) [10; 20; 59999]) /\
  List.map allowedOf (fst (run cfg (checksAt ip [0; 10; 20; 59999]) ∅)) =
    [Some true; Some true; Some false; Some false].
Proof.
  intros cfg ip.
  assert (H : 0 <= maxRequests cfg /\ (∅ : Store) !! ip = None /\
   Forall (fun t => t - 0 < windowDuration cfg) [10; 20; 59999]).
  { split; [simpl; lia|]. split; [done|].
    repeat (constructor; [vm_compute; reflexivity|]). constructor. }
  split; [exact H|].
  destruct H as (H1 & H2 & H3).
  exact (checkRateLimit_window_quota cfg ip 0 [10; 20; 59999] ∅ H1 H2 H3).
Defined.

(** *** The retry delay *)

(** For [maxRequests >= 1]: an allowed request carries no [retryAfter]; a
    blocked one carries a whole number of seconds, at least 1, that is the
    time left until [resetTime] rounded up, and [resetTime] lies in the
    future. *)
Theorem checkRateLimit_retryAfter (cfg : Config) (now : Z) (ip : jsstring)
    (st : Store) :
  1 <= maxRequests cfg ->
  let r := fst (checkRateLimit cfg now ip st) in
  (allowed r = true -> retryAfter r = None) /\
  (allowed r = false ->
   exists seconds,
     retryAfter r = Some seconds /\
     1 <= seconds /\
     now < resetTime r /\
     1000 * (seconds - 1) < resetTime r - now <= 1000 * seconds).
Proof.
  intros Hmax. rewrite checkRateLimit_spec. simpl.
  split; [by intros ->|].
  intros Hblocked. rewrite Hblocked. eexists. split; [done|].
  apply Z.ltb_ge in Hblocked.
  assert (Hfuture : now - currentWindowStart cfg now (st !! ip) < windowDuration cfg).
  { unfold currentCount, currentWindowStart, isExpired in *.
    destruct (st !! ip) as [e|]; [|lia].
    destruct (now - windowStart e >=? windowDuration cfg) eqn:E; lia. }
  unfold ceilSeconds.
  set (x := currentWindowStart cfg now (st !! ip) + windowDuration cfg - now) in *.
  assert (0 < x) by (unfold x; lia).
  pose proof (Z.div_mod (- x) 1000 ltac:(lia)) as Hdm.
  pose proof (Z.mod_pos_bound (- x) 1000 ltac:(lia)) as Hb.
  lia.
Qed.

Lemma checkRateLimit_retryAfter_witness :
  let cfg := {| maxRequests := 1; windowMinutes := 1 |} in
  let ip := u "203.0.113.7" in
  let st : Store := {[ ip := {| count := 1; windowStart := 0 |} ]} in
  1 <= maxRequests cfg /\
  let r := fst (checkRateLimit cfg 14800 ip st) in
  (allowed r = true -> retryAfter r = None) /\
  (allowed r = false ->
   exists seconds,
     retryAfter r = Some seconds /\
     1 <= seconds /\
     14800 < resetTime r /\
     1000 * (seconds - 1) < resetTime r - 14800 <= 1000 * seconds).
Proof.
  intros cfg ip st.
  assert (H : 1 <= maxRequests cfg) by (simpl; lia).
  split; [exact H|].
  exact (checkRateLimit_retryAfter cfg 14800 ip st H).
Defined.

(** *** The forwarded-for header *)

Lemma splitFirst_no_sep (sep : N) (s : jsstring) : ~ In sep (splitFirst sep s).
Proof.
  induction s as [|c t IH]; simpl; [tauto|].
  destruct (c =? sep)%N eqn:E; simpl; [tauto|].
  apply N.eqb_neq in E. intros [H|H]; [congruence|auto].
Qed.

Lemma splitFirst_prefix (sep : N) (s : jsstring) :
  exists rest, s = splitFirst sep s ++ rest /\
               (rest = [] \/ exists rest', rest = sep :: rest').
Proof.
  induction s as [|c t (rest & Hr & Hcase)]; simpl.
  - exists []. split; [done|by left].
  - destruct (c =? sep)%N eqn:E.
    + apply N.eqb_eq in E. subst c. exists (sep :: t). split; [done|].
      right. by exists t.
    + exists rest. split; [simpl; by rewrite <- Hr|done].
Qed.

Lemma trim_not_In (c : N) (s : jsstring) : ~ In c s -> ~ In c (trim s).
Proof.
  intros H Hin. apply H. destruct (trim_segment s) as (p & r & Hs).
  rewrite Hs. apply in_or_app. right. apply in_or_app. by left.
Qed.

(** When [x-forwarded-for] holds a non-empty string, or an array with a
    first element, the identifier is taken from it whatever the other
    headers say: it is the part before the first comma, trimmed, so it
    holds no comma and neither starts nor ends with whitespace. *)
Theorem extractIPAddress_forwarded_for (headers : Headers) (v : HeaderValue)
    (s : jsstring) :
  headers !! u "x-forwarded-for" = Some v ->
  (v = HString s /\ s <> []) \/ (exists more, v = HArray (s :: more)) ->
  exists ip before rest,
    extractIPAddress headers = Ok ip /\
    ip = trim before /\
    s = before ++ rest /\
    (rest = [] \/ exists rest', rest = 44%N :: rest') /\
    ~ In 44%N ip /\
    startsWithWhiteSpace ip = false /\
    endsWithWhiteSpace ip = false.
Proof.
  intros Hget Hv.
  destruct (splitFirst_prefix 44 s) as (rest & Hs & Hrest).
  exists (trim (splitFirst 44 s)), (splitFirst 44 s), rest.
  split.
  { unfold extractIPAddress. rewrite Hget.
    destruct Hv as [[-> Hne]|[more ->]]; simpl.
    - destruct s; done.
    - done. }
  split; [done|]. split; [done|]. split; [done|].
  split; [apply trim_not_In, splitFirst_no_sep|].
  split; [apply trim_starts|apply trim_ends].
Qed.

Lemma extractIPAddress_forwarded_for_witness :
  let s := u " 203.0.113.7 , 10.0.0.1" in
  let headers : Headers :=
    <[ u "x-forwarded-for" := HString s ]>
      {[ u "x-real-ip" := HString (u "10.0.0.2") ]} in
  (headers !! u "x-forwarded-for" = Some (HString s) /\
   ((HString s = HString s /\ s <> []) \/
    (exists more, HString s = HArray (s :: more)))) /\
  exists ip before rest,
    extractIPAddress headers = Ok ip /\
    ip = trim before /\
    s = before ++ rest /\
    (rest = [] \/ exists rest', rest = 44%N :: rest') /\
    ~ In 44%N ip /\
    startsWithWhiteSpace ip = false /\
    endsWithWhiteSpace ip = false.
Proof.
  intros s headers.
  assert (H : headers !! u "x-forwarded-for" = Some (HString s) /\
   ((HString s = HString s /\ s <> []) \/
    (exists more, HString s = HArray (s :: more)))).
  { split; [apply lookup_insert_eq|]. left. split; [done|]. discriminate. }
  split; [exact H|].
  destruct H as (H1 & H2).
  exact (extractIPAddress_forwarded_for headers (HString s) s H1 H2).
Defined.

(** For [maxRequests >= 1], after a blocked request the client stays
    blocked at every later clock reading before [resetTime], and is
    allowed again, with a fresh window, at every clock reading that is at
    least [retryAfter] seconds later. *)
Theorem checkRateLimit_blocked_until_reset (cfg : Config) (now : Z)
    (ip : jsstring) (st : Store) (seconds : Z) :
  1 <= maxRequests cfg ->
  retryAfter (fst (checkRateLimit cfg now ip st)) = Some seconds ->
  let r := fst (checkRateLimit cfg now ip st) in
  let st' := snd (checkRateLimit cfg now ip st) in
  (forall later : Z, now <= later < resetTime r ->
     allowed (fst (checkRateLimit cfg later ip st')) = false /\
     snd (checkRateLimit cfg later ip st') = st') /\
  (forall later : Z, now + 1000 * seconds <= later ->
     allowed (fst (checkRateLimit cfg later ip st')) = true /\
     remaining (fst (checkRateLimit cfg later ip st')) = maxRequests cfg - 1 /\
     resetTime (fst (checkRateLimit cfg later ip st')) = later + windowDuration cfg).
Proof.
  intros Hmax. rewrite !checkRateLimit_spec. cbn [fst snd retryAfter resetTime].
  set (c := currentCount cfg now (st !! ip)).
  set (w := currentWindowStart cfg now (st !! ip)).
  destruct (c <? maxRequests cfg) eqn:E; [done|]. intros [= <-].
  apply Z.ltb_ge in E.
  assert (Hw : now - w < windowDuration cfg).
  { unfold c, w, currentCount, currentWindowStart, isExpired in *.
    destruct (st !! ip) as [e|]; [|lia].
    destruct (now - windowStart e >=? windowDuration cfg) eqn:E'; lia. }
  split.
  - intros later Hlater. rewrite checkRateLimit_spec. cbn [fst snd allowed].
    rewrite lookup_insert_eq.
    unfold currentCount, currentWindowStart, isExpired. cbn [windowStart count].
    replace (later - w >=? windowDuration cfg) with false by (symmetry; lia).
    replace (c <? maxRequests cfg) with false by (symmetry; lia).
    split; [done|]. by rewrite insert_insert_eq.
  - intros later Hlater. rewrite checkRateLimit_spec.
    cbn [fst snd allowed remaining resetTime].
    rewrite lookup_insert_eq.
    unfold currentCount, currentWindowStart, isExpired. cbn [windowStart count].
    assert (Hx : w + windowDuration cfg - now
                 <= 1000 * ceilSeconds (w + windowDuration cfg - now)).
    { unfold ceilSeconds.
      set (x := w + windowDuration cfg - now).
      pose proof (Z.div_mod (- x) 1000 ltac:(lia)) as Hdm.
      pose proof (Z.mod_pos_bound (- x) 1000 ltac:(lia)) as Hb.
      lia. }
    replace (later - w >=? windowDuration cfg) with true by (symmetry; lia).
    replace (0 <? maxRequests cfg) with true by (symmetry; lia).
    split; [done|]. split; lia.
Qed.

Lemma checkRateLimit_blocked_until_reset_witness :
  let cfg := {| maxRequests := 1; windowMinutes := 1 |} in
  let ip := u "203.0.113.7" in
  let st : Store := {[ ip := {| count := 1; windowStart := 0 |} ]} in
  (1 <= maxRequests cfg /\
   retryAfter (fst (checkRateLimit cfg 500 ip st)) = Some 60) /\
  allowed (fst (checkRateLimit cfg 60500 ip (snd (checkRateLimit cfg 500 ip st))))
    = true.
Proof.
  intros cfg ip st.
  assert (H : 1 <= maxRequests cfg /\
              retryAfter (fst (checkRateLimit cfg 500 ip st)) = Some 60).
  { split; [simpl; lia|vm_compute; reflexivity]. }
  split; [exact H|].
  destruct H as (H1 & H2).
  refine (proj1 (proj2 (checkRateLimit_blocked_until_reset cfg 500 ip st 60 H1 H2)
                   60500 _)).
  lia.
Defined.

End RateLimitMore.

(** ** The shape of a normalized result *)

Section NormalizerMore.

Lemma bind_Ok {A B} (m : result A) (k : A -> result B) (b : B) :
  JS.bind m k = Ok b -> exists a, m = Ok a /\ k a = Ok b.
Proof. destruct m as [a|e]; simpl; [eauto|done]. Qed.

Lemma mapM_Ok {A B} (f : A -> result B) (xs : list A) (ys : list B) :
  mapM f xs = Ok ys -> Forall2 (fun x y => f x = Ok y) xs ys.
Proof.
  revert ys. induction xs as [|x t IH]; intros ys; simpl.
  - intros [= <-]. constructor.
  - intros (y & Hy & (ys' & Hys & [= <-])%bind_Ok)%bind_Ok.
    constructor; auto.
Qed.

Lemma filterM_Ok {A} (p : A -> result bool) (xs ys : list A) :
  filterM p xs = Ok ys -> Forall (fun y => p y = Ok true) ys.
Proof.
  revert ys. induction xs as [|x t IH]; intros ys; simpl.
  - intros [= <-]. constructor.
  - intros (keep & Hk & (rest & Hrest & [= <-])%bind_Ok)%bind_Ok.
    destruct keep; [constructor|]; auto.
Qed.

Lemma isTrimmed_trim (s : jsstring) : isTrimmed (trim s) = true.
Proof. unfold isTrimmed. by rewrite trim_starts, trim_ends. Qed.

Lemma isTrimmed_fixed (s : jsstring) : isTrimmed s = true -> trim s = s.
Proof.
  unfold isTrimmed. intros [H1 H2]%andb_true_iff.
  apply negb_true_iff in H1. apply negb_true_iff in H2. by apply trim_fixed.
Qed.

Lemma isLabel_trim (s : jsstring) :
  (0 <? len (trim s))%Z = true -> isLabel (trim s) = true.
Proof.
  intros H. unfold isLabel. pose proof (isTrimmed_trim s) as Ht.
  destruct (trim s); [done|exact Ht].
Qed.

Lemma isLabel_spec (s : jsstring) :
  isLabel s = true <-> s <> [] /\ isTrimmed s = true.
Proof. unfold isLabel. destruct s; split; try done; by intros [? ?]. Qed.

Lemma normalizeCategories_labels (parsed : value) (cs : list jsstring) :
  normalizeCategories parsed = Ok cs -> Forall (fun c => isLabel c = true) cs.
Proof.
  unfold normalizeCategories. intros (cats & _ & H)%bind_Ok.
  destruct (truthy cats); [|injection H as <-; constructor].
  destruct cats as [[| | | |xs|]|]; try (injection H as <-; constructor).
  apply bind_Ok in H as (trimmed & Hm & [= <-]).
  apply mapM_Ok in Hm.
  induction Hm as [|x y xs' ys Hxy _ IH]; simpl; [constructor|].
  destruct (0 <? len y)%Z eqn:E; [|done].
  constructor; [|done].
  destruct x; try done. injection Hxy as <-. by apply isLabel_trim.
Qed.

Lemma optCallString_trimmed (v : option value) (o : option jsstring) :
  optCallString v trim = Ok o -> isTrimmed (orEmpty o) = true.
Proof.
  destruct v as [[| | |s| |]|]; simpl; try done; intros [= <-]; try done.
  apply isTrimmed_trim.
Qed.

Lemma normalizeIndicator_wellFormed (ind : value) (i : AIIndicator) :
  hasType ind = Ok true -> normalizeIndicator ind = Ok i ->
  wellFormedIndicator i.
Proof.
  unfold hasType, normalizeIndicator.
  destruct (truthy (Some ind)); [|done].
  destruct (getProp ind (u "type")) as [t|]; simpl; [|done].
  destruct t as [[| | |s| |]|]; try done. simpl.
  intros [= Hlen].
  intros (sv & _ & (sn & Hsn & (ev & _ & (ex & Hex & [= <-])%bind_Ok)%bind_Ok)%bind_Ok)%bind_Ok.
  split; [by apply isLabel_trim|].
  split; simpl; eapply optCallString_trimmed; eauto.
Qed.

Lemma normalizeIndicators_wellFormed (parsed : value) (l : list AIIndicator) :
  normalizeIndicators parsed = Ok l -> Forall wellFormedIndicator l.
Proof.
  unfold normalizeIndicators. intros (inds & _ & H)%bind_Ok.
  destruct (truthy inds); [|injection H as <-; constructor].
  destruct inds as [[| | | |xs|]|]; try (injection H as <-; constructor).
  apply bind_Ok in H as (kept & Hk & Hm).
  apply filterM_Ok in Hk. apply mapM_Ok in Hm.
  induction Hm as [|x y xs' ys Hxy _ IH]; [constructor|].
  inversion Hk; subst. constructor; [|auto].
  by eapply normalizeIndicator_wellFormed.
Qed.

Lemma normalizeReasoning_label (parsed : value) (s : jsstring) :
  normalizeReasoning parsed = Ok s -> isLabel s = true.
Proof.
  unfold normalizeReasoning. intros (r & _ & H)%bind_Ok.
  destruct r as [[| | |t| |]|]; try (injection H as <-; reflexivity).
  destruct (0 <? len (trim t))%Z eqn:E; injection H as <-;
    [by apply isLabel_trim|reflexivity].
Qed.

Lemma normalizeParsed_wellFormed (parsed : value) (r : DetectionResult) :
  normalizeParsed parsed = Ok r -> wellFormed r.
Proof.
  unfold normalizeParsed. intros (flag & _ & H)%bind_Ok.
  destruct flag as [[|b| | | |]|]; try done.
  apply bind_Ok in H as (c & _ & H).
  apply bind_Ok in H as (cs & Hcs & H).
  apply bind_Ok in H as (l & His & H).
  apply bind_Ok in H as (why & Hwhy & [= <-]).
  split; [|split]; simpl.
  - by eapply normalizeCategories_labels.
  - by eapply normalizeIndicators_wellFormed.
  - by eapply normalizeReasoning_label.
Qed.

(** Whatever the reply, a result that [parseDetectionResult] returns has
    only categories and indicator types that are non-empty and carry no
    surrounding whitespace, indicator snippets and explanations without
    surrounding whitespace, and a reasoning that is non-empty and
    trimmed. *)
Theorem parseDetectionResult_wellFormed (responseContent : jsstring)
    (r : DetectionResult) :
  parseDetectionResult responseContent = Ok r ->
  Forall (fun c => c <> [] /\ isTrimmed c = true) (categoriesFound r) /\
  Forall (fun i => type i <> [] /\ isTrimmed (type i) = true /\
                   isTrimmed (snippet i) = true /\
                   isTrimmed (explanation i) = true) (indicators r) /\
  reasoning r <> [] /\ isTrimmed (reasoning r) = true.
Proof.
  unfold parseDetectionResult.
  destruct (JSON_parse responseContent) as [parsed|]; [|done].
  intros (Hc & Hi & Hr)%normalizeParsed_wellFormed.
  split; [|split].
  - eapply Forall_impl; [|exact Hc]. intros c. apply isLabel_spec.
  - eapply Forall_impl; [|exact Hi]. intros i ([? ?]%isLabel_spec & ? & ?). auto.
  - by apply isLabel_spec.
Qed.

Lemma parseDetectionResult_wellFormed_witness :
  let r := {| aiFlag := true; confidence := Medium;
              categoriesFound := [u "A"; u "B"];
              indicators :=
                [ {| type := u "X"; snippet := u "s"; explanation := [] |} ];
              reasoning := u "No reasoning provided" |} in
  parseDetectionResult exampleText = Ok r /\
  (Forall (fun c => c <> [] /\ isTrimmed c = true) (categoriesFound r) /\
   Forall (fun i => type i <> [] /\ isTrimmed (type i) = true /\
                    isTrimmed (snippet i) = true /\
                    isTrimmed (explanation i) = true) (indicators r) /\
   reasoning r <> [] /\ isTrimmed (reasoning r) = true).
Proof.
  intros r.
  assert (H : parseDetectionResult exampleText = Ok r) by (vm_compute; reflexivity).
  split; [exact H|].
  exact (parseDetectionResult_wellFormed exampleText r H).
Defined.

(** *** Results are fixed points of the normalizer *)

Lemma toLowerCase_confidenceText (c : Confidence) :
  toLowerCase (confidenceText c) = confidenceText c.
Proof. by destruct c. Qed.

Lemma normalizeConfidence_resultValue (r : DetectionResult) :
  normalizeConfidence (resultValue r) = Ok (confidence r).
Proof.
  unfold normalizeConfidence.
  change (getProp (resultValue r) (u "confidence"))
    with (Ok (A := option value) (Some (JString (confidenceText (confidence r))))).
  by destruct (confidence r).
Qed.

Lemma filter_strings (cs : list jsstring) :
  List.filter isStringValue (List.map JString cs) = List.map JString cs.
Proof. induction cs as [|c t IH]; simpl; [done|by rewrite IH]. Qed.

Lemma mapM_trim_fixed (cs : list jsstring) :
  Forall (fun c => isLabel c = true) cs ->
  mapM (fun cat => callString (Some cat) trim) (List.map JString cs) = Ok cs.
Proof.
  induction 1 as [|c t Hc _ IH]; [done|].
  apply isLabel_spec in Hc as [Hne Ht].
  cbn [List.map mapM]. rewrite IH. simpl.
  by rewrite (isTrimmed_fixed c Ht).
Qed.

Lemma filter_labels (cs : list jsstring) :
  Forall (fun c => isLabel c = true) cs ->
  List.filter (fun cat => (0 <? len cat)%Z) cs = cs.
Proof.
  induction 1 as [|c t Hc _ IH]; [done|].
  simpl. rewrite IH. apply isLabel_spec in Hc as [Hne _].
  by destruct c.
Qed.

Lemma categories_fixed (cs : list jsstring) :
  Forall (fun c => isLabel c = true) cs ->
  (let* trimmed := mapM (fun cat => callString (Some cat) trim)
                     (List.filter isStringValue (List.map JString cs)) in
   Ok (List.filter (fun cat => (0 <? len cat)%Z) trimmed)) = Ok cs.
Proof.
  intros H. rewrite filter_strings, mapM_trim_fixed by done.
  simpl. by rewrite filter_labels.
Qed.

Lemma normalizeCategories_resultValue (r : DetectionResult) :
  Forall (fun c => isLabel c = true) (categoriesFound r) ->
  normalizeCategories (resultValue r) = Ok (categoriesFound r).
Proof.
  intros H. unfold normalizeCategories.
  change (getProp (resultValue r) (u "categoriesFound"))
    with (Ok (A := option value)
            (Some (JArray (List.map JString (categoriesFound r))))).
  simpl. by apply categories_fixed.
Qed.

Lemma hasType_indicatorValue (i : AIIndicator) :
  isLabel (type i) = true -> hasType (indicatorValue i) = Ok true.
Proof.
  intros [Hne Ht]%isLabel_spec. unfold hasType.
  change (getProp (indicatorValue i) (u "type"))
    with (Ok (A := option value) (Some (JString (type i)))).
  simpl. rewrite (isTrimmed_fixed _ Ht). by destruct (type i).
Qed.

Lemma normalizeIndicator_indicatorValue (i : AIIndicator) :
  wellFormedIndicator i -> normalizeIndicator (indicatorValue i) = Ok i.
Proof.
  intros ([Hne Ht]%isLabel_spec & Hsn & Hex). unfold normalizeIndicator.
  change (getProp (indicatorValue i) (u "type"))
    with (Ok (A := option value) (Some (JString (type i)))).
  change (getProp (indicatorValue i) (u "snippet"))
    with (Ok (A := option value) (Some (JString (snippet i)))).
  change (getProp (indicatorValue i) (u "explanation"))
    with (Ok (A := option value) (Some (JString (explanation i)))).
  simpl.
  rewrite (isTrimmed_fixed _ Ht), (isTrimmed_fixed _ Hsn), (isTrimmed_fixed _ Hex).
  by destruct i.
Qed.

Lemma indicators_fixed (l : list AIIndicator) :
  Forall wellFormedIndicator l ->
  (let* kept := filterM hasType (List.map indicatorValue l) in
   mapM normalizeIndicator kept) = Ok l.
Proof.
  induction 1 as [|i t Hi _ IH]; [done|].
  apply bind_Ok in IH as (kept & Hkept & IH).
  cbn [List.map filterM].
  rewrite (hasType_indicatorValue i (proj1 Hi)), Hkept.
  cbn [JS.bind mapM].
  by rewrite (normalizeIndicator_indicatorValue i Hi), IH.
Qed.

Lemma normalizeIndicators_resultValue (r : DetectionResult) :
  Forall wellFormedIndicator (indicators r) ->
  normalizeIndicators (resultValue r) = Ok (indicators r).
Proof.
  intros H. unfold normalizeIndicators.
  change (getProp (resultValue r) (u "indicators"))
    with (Ok (A := option value)
            (Some (JArray (List.map indicatorValue (indicators r))))).
  simpl. by apply indicators_fixed.
Qed.

Lemma normalizeReasoning_resultValue (r : DetectionResult) :
  isLabel (reasoning r) = true ->
  normalizeReasoning (resultValue r) = Ok (reasoning r).
Proof.
  intros [Hne Ht]%isLabel_spec. unfold normalizeReasoning.
  change (getProp (resultValue r) (u "reasoning"))
    with (Ok (A := option value) (Some (JString (reasoning r)))).
  simpl. rewrite (isTrimmed_fixed _ Ht). by destruct (reasoning r).
Qed.

Lemma normalizeParsed_resultValue (r : DetectionResult) :
  wellFormed r -> normalizeParsed (resultValue r) = Ok r.
Proof.
  intros (Hc & Hi & Hr). unfold normalizeParsed.
  change (getProp (resultValue r) (u "aiFlag"))
    with (Ok (A := option value) (Some (JBool (aiFlag r)))).
  simpl JS.bind.
  rewrite normalizeConfidence_resultValue, normalizeCategories_resultValue,
    normalizeIndicators_resultValue, normalizeReasoning_resultValue by done.
  simpl. by destruct r.
Qed.

Lemma isValidDetectionResult_resultValue (r : DetectionResult) :
  isValidDetectionResult (Some (resultValue r)) = true.
Proof. destruct r as [flag c cs l why]. by destruct c. Qed.

(** Normalizing is idempotent: the object that [parseDetectionResult]
    returns, read again as a parsed reply, normalizes to itself, and it
    passes [isValidDetectionResult]. *)
Theorem parseDetectionResult_fixed_point (responseContent : jsstring)
    (r : DetectionResult) :
  parseDetectionResult responseContent = Ok r ->
  normalizeParsed (resultValue r) = Ok r /\
  isValidDetectionResult (Some (resultValue r)) = true.
Proof.
  unfold parseDetectionResult.
  destruct (JSON_parse responseContent) as [parsed|]; [|done].
  intros H%normalizeParsed_wellFormed. split.
  - by apply normalizeParsed_resultValue.
  - apply isValidDetectionResult_resultValue.
Qed.

Lemma parseDetectionResult_fixed_point_witness :
  let r := {| aiFlag := true; confidence := Medium;
              categoriesFound := [u "A"; u "B"];
              indicators :=
                [ {| type := u "X"; snippet := u "s"; explanation := [] |} ];
              reasoning := u "No reasoning provided" |} in
  parseDetectionResult exampleText = Ok r /\
  (normalizeParsed (resultValue r) = Ok r /\
   isValidDetectionResult (Some (resultValue r)) = true).
Proof.
  intros r.
  assert (H : parseDetectionResult exampleText = Ok r) by (vm_compute; reflexivity).
  split; [exact H|].
  exact (parseDetectionResult_fixed_point exampleText r H).
Defined.

End NormalizerMore.

(** ** The notification text *)

Section NotificationFacts.

(** For a flagged result the reasoning only ever adds a tail to the
    message: the message is the one of the same result without a reasoning
    of its own, followed by nothing when the reasoning is empty or the
    default text, and otherwise by a blank line and the reasoning, cut to
    150 code units and three dots when it is longer; the tail never
    exceeds 155 code units. *)
Theorem createNotificationMessage_reasoning_tail (r : DetectionResult) :
  aiFlag r = true ->
  let base :=
    createNotificationMessage
      {| aiFlag := true; confidence := confidence r;
         categoriesFound := categoriesFound r; indicators := indicators r;
         reasoning := defaultReasoning |} in
  let tail :=
    if bool_decide (reasoning r = []) || bool_decide (reasoning r = defaultReasoning)
    then []
    else if len (reasoning r) >? 150
         then [10%N; 10%N] ++ firstn 150 (reasoning r) ++ u "..."
         else [10%N; 10%N] ++ reasoning r in
  createNotificationMessage r = base ++ tail /\
  len tail <= 155.
Proof.
  intros Hflag base tail. subst base tail.
  unfold createNotificationMessage. rewrite Hflag.
  cbn [negb aiFlag confidence categoriesFound indicators reasoning].
  set (m1 := [9888%N; 65039%N] ++ _ ++ _ ++ _).
  set (m2 := if (0 <? List.length (categoriesFound r))%nat then _ else m1).
  set (m3 := if (0 <? List.length (indicators r))%nat then _ else m2).
  rewrite (bool_decide_eq_true_2 (defaultReasoning = defaultReasoning)) by done.
  rewrite andb_false_r.
  destruct (reasoning r) as [|c t] eqn:Er.
  - simpl. split; [by rewrite app_nil_r|]. unfold len. simpl. lia.
  - change (truthy (Some (JString (c :: t)))) with true.
    rewrite (bool_decide_eq_false_2 (c :: t = [])) by done.
    cbn [orb andb]. destruct (bool_decide (c :: t = defaultReasoning)).
    + simpl. split; [by rewrite app_nil_r|]. unfold len. simpl. lia.
    + cbn [negb]. destruct (len (c :: t) >? 150) eqn:E.
      * rewrite substring_from_0. split; [done|].
        unfold len. rewrite !length_app, length_take.
        change (List.length (u "...")) with 3%nat.
        change (List.length [10%N; 10%N]) with 2%nat. lia.
      * split; [done|]. rewrite Z.gtb_ltb in E. apply Z.ltb_ge in E.
        unfold len in *. rewrite length_app.
        change (List.length [10%N; 10%N]) with 2%nat. lia.
Qed.

Lemma createNotificationMessage_reasoning_tail_witness :
  let r := {| aiFlag := true; confidence := High;
              categoriesFound := [u "Meta-commentary"]; indicators := [];
              reasoning := u "Opens with a chat-style preamble." |} in
  aiFlag r = true /\
  createNotificationMessage r =
    createNotificationMessage
      {| aiFlag := true; confidence := High;
         categoriesFound := [u "Meta-commentary"]; indicators := [];
         reasoning := defaultReasoning |}
    ++ [10%N; 10%N] ++ u "Opens with a chat-style preamble.".
Proof.
  intros r.
  assert (H : aiFlag r = true) by reflexivity.
  split; [exact H|].
  exact (proj1 (createNotificationMessage_reasoning_tail r H)).
Defined.

End NotificationFacts.

(** ** The request handler *)

Import Handler.

Section HandlerFacts.

Lemma secretMatches_spec (provided : option HeaderValue) (secret : jsstring) :
  secretMatches provided secret = true <-> provided = Some (HString secret).
Proof.
  unfold secretMatches. destruct provided as [[s|l]|]; try (split; done).
  rewrite bool_decide_eq_true. split; [by intros ->|by intros [= ->]].
Qed.

Lemma checkRateLimit_blocked (c : Config) (now : Z) (ip : jsstring) (st : Store) :
  allowed (fst (checkRateLimit c now ip st)) = false ->
  is_Some (retryAfter (fst (checkRateLimit c now ip st))).
Proof.
  rewrite checkRateLimit_spec. cbn [fst allowed retryAfter]. intros ->. eauto.
Qed.

(** One step of the case analysis that follows the handler's control
    flow: the condition at the head of the goal is split. *)
Ltac handler_simpl :=
  cbn [response storeAfter analysed status rateLimitHeaders retryAfterHeader
       responseBody errorResponse internalError negb andb].

Ltac handler_step :=
  handler_simpl;
  lazymatch goal with
  | |- context [handler _ _ _ _ _] => unfold handler
  | |- context [if bool_decide (method ?r = ?m) then _ else _] =>
      destruct (bool_decide (method r = m)) eqn:?
  | |- context [if negb (bool_decide (method ?r = ?m)) then _ else _] =>
      destruct (bool_decide (method r = m)) eqn:?
  | |- context [if negb (truthyHeader ?h) then _ else _] =>
      destruct (truthyHeader h) eqn:?
  | |- context [if negb (secretMatches ?h ?s) then _ else _] =>
      destruct (secretMatches h s) eqn:?
  | |- context [match extractIPAddress ?h with _ => _ end] =>
      destruct (extractIPAddress h) eqn:?
  | |- context [checkRateLimit ?c ?n ?i ?s] =>
      let H := fresh "Hcheck" in
      pose proof (checkRateLimit_blocked c n i s) as H;
      destruct (checkRateLimit c n i s) as [? ?] eqn:?;
      cbn [fst snd] in H
  | |- context [if negb (allowed ?r) then _ else _] =>
      destruct (allowed r) eqn:?
  | |- context [match retryAfter ?r with _ => _ end] =>
      destruct (retryAfter r) eqn:?
  | |- context [if negb (truthy (body ?r)) then _ else _] =>
      destruct (body r) as [?|] eqn:?;
      [destruct (truthy (Some _)) eqn:?|]
  | |- context [match getProp ?b ?k with _ => _ end] =>
      destruct (getProp b k) as [?|?] eqn:?
  | |- context [if negb (truthy ?t) then _ else _] =>
      destruct (truthy t) eqn:?
  | |- context [match callString ?t validateText with _ => _ end] =>
      destruct t as [[| | |?| |]|]; cbn [callString]
  | |- context [if negb (isValid ?v) then _ else _] =>
      destruct (isValid v) eqn:?
  | |- context [match ?d (sanitizedText ?r) with _ => _ end] =>
      destruct (d (sanitizedText r)) as [?|?] eqn:?
  | |- context [if negb (bool_decide (finishReason ?o = ?a)) &&
                   bool_decide (finishReason ?o = ?b) then _ else _] =>
      destruct (bool_decide (finishReason o = a)) eqn:?;
      destruct (bool_decide (finishReason o = b)) eqn:?
  | |- context [match parseDetectionResult ?c with _ => _ end] =>
      destruct (parseDetectionResult c) as [?|?] eqn:?
  end.

(** The handler hands a text to the model only for a POST request that
    carries the shared secret, from a client that the rate limiter has
    just allowed, whose body has a string [text] of at least [MIN_LENGTH]
    code units after trimming; and the text it hands over is the sanitized
    one: free of stripped control characters and carriage returns, and
    within the configured length. *)
Theorem handler_model_call_guarded (cfg : AppConfig)
    (detectAIContent : jsstring -> result OpenAIResponse)
    (now : Z) (req : Request) (st : Store) (t : jsstring) :
  analysed (handler cfg detectAIContent now req st) = Some t ->
  method req = Some (u "POST") /\
  headers req !! u "x-sendsafe-secret" = Some (HString (sharedSecret cfg)) /\
  exists (ip : jsstring) (b : value) (s : jsstring),
    extractIPAddress (headers req) = Ok ip /\
    allowed (fst (checkRateLimit (rateLimit cfg) now ip st)) = true /\
    body req = Some b /\ getProp b (u "text") = Ok (Some (JString s)) /\
    MIN_LENGTH <= len (trim s) /\
    t = sanitizedText (sanitizeInput (maxLength cfg) s) /\
    Forall (fun c => isControlChar c = false /\ c <> 13%N) t /\
    (0 <= maxLength cfg -> len t <= maxLength cfg).
Proof.
  repeat handler_step; try discriminate.
  all: intros [= <-].
  all: split; [by eapply bool_decide_eq_true_1|].
  all: split; [by apply secretMatches_spec|].
  all: do 3 eexists.
  all: repeat split; try eassumption; try reflexivity.
  all: try (by apply validateText_valid).
  all: try apply sanitizedText_plain.
  all: try by apply sanitizedText_length.
  all: try by match goal with H : checkRateLimit _ _ _ _ = _ |- _ => rewrite H end.
Qed.

Ltac decided :=
  repeat match goal with
  | H : bool_decide _ = true |- _ => apply bool_decide_eq_true in H
  | H : bool_decide _ = false |- _ => apply bool_decide_eq_false in H
  | H : secretMatches _ _ = true |- _ => apply secretMatches_spec in H
  | H : secretMatches _ _ = false |- _ =>
      apply not_true_iff_false in H; rewrite secretMatches_spec in H
  end.

(** A request that is not a POST, or that does not carry the shared
    secret, is answered before the rate limiter is asked: the store is
    left as it was, no rate-limit header is set, the model is not called,
    and the status is 200 only for the preflight, which has no body. *)
Theorem handler_rejects_without_counting (cfg : AppConfig)
    (detectAIContent : jsstring -> result OpenAIResponse)
    (now : Z) (req : Request) (st : Store) :
  method req <> Some (u "POST") \/
  headers req !! u "x-sendsafe-secret" <> Some (HString (sharedSecret cfg)) ->
  let h := handler cfg detectAIContent now req st in
  storeAfter h = st /\ analysed h = None /\
  rateLimitHeaders (response h) = None /\
  In (status (response h)) [200; 405; 401; 403] /\
  (status (response h) = 200 ->
   method req = Some (u "OPTIONS") /\ responseBody (response h) = NoBody).
Proof.
  intros Hno h. subst h. do 2 handler_step.
  { decided. handler_simpl. simpl. tauto. }
  handler_step; [|handler_simpl; simpl; intuition discriminate].
  handler_step; [|handler_simpl; simpl; intuition discriminate].
  handler_step; [|handler_simpl; simpl; intuition discriminate].
  decided. exfalso. by destruct Hno.
Qed.

(** Every POST request that carries the (non-empty) shared secret and
    from which a client identifier can be read is counted, whatever
    happens to it afterwards: the store the handler leaves is the one that
    [checkRateLimit] leaves, the three rate-limit headers carry the
    configured limit and the limiter's answer, the status is 429 exactly
    when the limiter blocks, and a 429 carries the limiter's [retryAfter]
    in the [Retry-After] header and never reaches the model. *)
Theorem handler_counts_authenticated_requests (cfg : AppConfig)
    (detectAIContent : jsstring -> result OpenAIResponse)
    (now : Z) (req : Request) (st : Store) (ip : jsstring) :
  method req = Some (u "POST") ->
  headers req !! u "x-sendsafe-secret" = Some (HString (sharedSecret cfg)) ->
  sharedSecret cfg <> [] ->
  extractIPAddress (headers req) = Ok ip ->
  let h := handler cfg detectAIContent now req st in
  let r := fst (checkRateLimit (rateLimit cfg) now ip st) in
  storeAfter h = snd (checkRateLimit (rateLimit cfg) now ip st) /\
  rateLimitHeaders (response h) =
    Some (maxRequests (rateLimit cfg), remaining r, resetTime r) /\
  (status (response h) = 429 <-> allowed r = false) /\
  (allowed r = false ->
   retryAfterHeader (response h) = retryAfter r /\
   is_Some (retryAfter r) /\
   analysed h = None).
Proof.
  intros Hm Hs Hne Hip h r. subst h r. do 2 handler_step.
  { decided. rewrite Hm in *. by vm_compute in Heqb. }
  handler_step; [|decided; done].
  handler_step;
    [|rewrite Hs in *; by destruct (sharedSecret cfg)].
  handler_step; [|decided; done].
  handler_step; [|done]. injection Hip as ->.
  handler_step. cbn [fst snd].
  handler_step.
  - (* allowed *)
    assert (Hgoal : forall h : Handled,
      storeAfter h = g ->
      rateLimitHeaders (response h) =
        Some (maxRequests (rateLimit cfg), remaining r, resetTime r) ->
      In (status (response h)) [200; 400; 500] ->
      storeAfter h = g /\
      rateLimitHeaders (response h) =
        Some (maxRequests (rateLimit cfg), remaining r, resetTime r) /\
      (status (response h) = 429 <-> true = false) /\
      (true = false ->
       retryAfterHeader (response h) = retryAfter r /\
       is_Some (retryAfter r) /\ analysed h = None)).
    { intros h H1 H2 H3. split; [done|]. split; [done|]. split; [|done].
      split; [|done]. intros H. rewrite H in H3. simpl in H3.
      intuition discriminate. }
    repeat handler_step; apply Hgoal; handler_simpl; simpl; auto.
  - (* blocked *)
    destruct Hcheck as [secs Hsecs]; [done|]. rewrite Hsecs.
    handler_simpl. split; [done|]. split; [done|]. split; [done|].
    intros _. split; [done|]. split; [eauto|done].
Qed.

(** The handler answers with a detection result exactly when it called
    the model, the model replied, the reply was not cut off for length,
    and the reply parses: the body is then the normalized result of that
    reply, under status 200. *)
Theorem handler_success_body (cfg : AppConfig)
    (detectAIContent : jsstring -> result OpenAIResponse)
    (now : Z) (req : Request) (st : Store) (r : DetectionResult) :
  let h := handler cfg detectAIContent now req st in
  responseBody (response h) = SuccessResponse r <->
  exists (t : jsstring) (reply : OpenAIResponse),
    analysed h = Some t /\
    detectAIContent t = Ok reply /\
    finishReason reply <> u "length" /\
    parseDetectionResult (content reply) = Ok r.
Proof.
  intros h. subst h.
  repeat handler_step; decided; handler_simpl.
  all: split; [intros [= <-]|intros (t & reply & [= <-] & Hd & Hf & Hp)];
    try discriminate.
  all: try congruence.
  all: do 2 eexists; repeat split; try eassumption; try reflexivity.
  all: match goal with H : finishReason _ = u "stop" |- _ => rewrite H end.
  all: by vm_compute.
Qed.

(** A response of status 200 is either the bodiless answer to a preflight
    or carries a detection result; every other response carries an error
    body, and the status is one of 200, 400, 401, 403, 405, 429 and 500. *)
Theorem handler_status (cfg : AppConfig)
    (detectAIContent : jsstring -> result OpenAIResponse)
    (now : Z) (req : Request) (st : Store) :
  let resp := response (handler cfg detectAIContent now req st) in
  match responseBody resp with
  | NoBody => status resp = 200 /\ method req = Some (u "OPTIONS")
  | SuccessResponse _ => status resp = 200
  | ErrorResponse _ _ secs =>
      In (status resp) [400; 401; 403; 405; 429; 500] /\
      secs = retryAfterHeader resp /\
      (is_Some secs <-> status resp = 429)
  end.
Proof.
  intros resp. subst resp.
  repeat handler_step; decided; handler_simpl; try done.
  all: simpl; split; [tauto|]; split; [done|].
  all: split; [intros [? [=]]|try discriminate; eauto].
  all: done.
Qed.

Lemma handler_model_call_guarded_witness :
  analysed (handler exampleConfig exampleModel 0 exampleRequest ∅)
    = Some (u "Dear team, see below.") /\
  method exampleRequest = Some (u "POST").
Proof.
  assert (H : analysed (handler exampleConfig exampleModel 0 exampleRequest ∅)
                = Some (u "Dear team, see below.")) by (vm_compute; reflexivity).
  split; [exact H|].
  exact (proj1 (handler_model_call_guarded exampleConfig exampleModel 0
                  exampleRequest ∅ _ H)).
Defined.

Lemma handler_rejects_without_counting_witness :
  (method exampleRequest <> Some (u "POST") \/
   headers exampleRequest !! u "x-sendsafe-secret" <> Some (HString (u "other"))) /\
  storeAfter
    (handler {| sharedSecret := u "other"; rateLimit := rateLimit exampleConfig;
                maxLength := 5000 |} exampleModel 0 exampleRequest ∅) = ∅.
Proof.
  assert (H : method exampleRequest <> Some (u "POST") \/
              headers exampleRequest !! u "x-sendsafe-secret"
                <> Some (HString (u "other"))).
  { right. vm_compute. discriminate. }
  split; [exact H|].
  exact (proj1 (handler_rejects_without_counting
                  {| sharedSecret := u "other"; rateLimit := rateLimit exampleConfig;
                     maxLength := 5000 |} exampleModel 0 exampleRequest ∅ H)).
Defined.

Lemma handler_counts_authenticated_requests_witness :
  (method exampleRequest = Some (u "POST") /\
   headers exampleRequest !! u "x-sendsafe-secret"
     = Some (HString (sharedSecret exampleConfig)) /\
   sharedSecret exampleConfig <> [] /\
   extractIPAddress (headers exampleRequest) = Ok (u "203.0.113.7")) /\
  storeAfter (handler exampleConfig exampleModel 0 exampleRequest ∅) =
    snd (checkRateLimit (rateLimit exampleConfig) 0 (u "203.0.113.7") ∅).
Proof.
  assert (H : method exampleRequest = Some (u "POST") /\
   headers exampleRequest !! u "x-sendsafe-secret"
     = Some (HString (sharedSecret exampleConfig)) /\
   sharedSecret exampleConfig <> [] /\
   extractIPAddress (headers exampleRequest) = Ok (u "203.0.113.7")).
  { split; [reflexivity|]. split; [vm_compute; reflexivity|].
    split; [vm_compute; discriminate|vm_compute; reflexivity]. }
  split; [exact H|].
  destruct H as (H1 & H2 & H3 & H4).
  exact (proj1 (handler_counts_authenticated_requests exampleConfig exampleModel 0
                  exampleRequest ∅ (u "203.0.113.7") H1 H2 H3 H4)).
Defined.

End HandlerFacts.
